(** * useVoiceChat: a shallow embedding of the voice coordination hook

    The hook (React, TypeScript) keeps six state variables and seven refs,
    talks to three platform services (the microphone / Web Audio, one
    realtime relay channel, one simple-peer connection per remote
    participant) and is driven by callbacks.  The embedding keeps

    - the state variables and the refs as fields of one record [Hook];
    - the platform objects the refs point to (media tracks, audio contexts,
      peer connections, relay channels, audio elements) in stores indexed
      by allocation order, so that an object that has been dropped from a
      ref or from a map can still be inspected;
    - every callback as a function [Hook -> Hook] that takes, as an explicit
      first argument, the render whose variables it closed over;
    - every [await] as a suspension recorded in [pending] and resumed by an
      event of the platform. *)

From Stdlib Require Import ZArith QArith Qminmax Lqa Lia Bool.
From Stdlib Require Import Strings.String Strings.Ascii Strings.Byte.
From stdpp Require Import base option list gmap strings.

Local Open Scope string_scope.
Local Open Scope list_scope.

(** ** JavaScript values used by the hook *)

(** A JS number is carried by [Q].  Every number the hook computes itself
    is a dyadic rational with a small numerator (see [normalizedLevel]), for
    which binary64 arithmetic is exact.

    [x > y] on numbers: *)
Definition num_gt (x y : Q) : bool := negb (Qle_bool x y).

Global Instance num_gt_proper : Proper (Qeq ==> Qeq ==> eq) num_gt.
Proof. intros x x' Hx y y' Hy. unfold num_gt. by rewrite Hx, Hy. Qed.

(** The literals [0.05] and [0.15] of the source denote the binary64 values
    nearest to them; these are their exact values. *)
Definition lit_0_05 : Q := 3602879701896397 # 72057594037927936.
Definition lit_0_15 : Q := 5404319552844595 # 36028797018963968.
Definition lit_0_8  : Q := 3602879701896397 # 4503599627370496.

(** Identities are JS strings; [a < b] on strings compares code units
    lexicographically, a proper prefix being smaller.  A character of a Rocq
    string stands for one code unit. *)
Definition str_lt (a b : string) : bool := String.ltb a b.

Definition str_truthy (a : string) : bool :=
  match a with EmptyString => false | _ => true end.

(** ** The roster shown to the display layer *)

Module VoiceUser.
Record t := mk {
  id : string;
  nickname : string;
  isMuted : bool;
  isSpeaking : bool;
  audioLevel : Q
}.
End VoiceUser.

(** ** Relay messages *)

Module Activity.
(** payload of a [voice_activity] broadcast *)
Record t := mk {
  userId : string;
  isSpeaking : bool;
  audioLevel : Q;
  isMuted : bool
}.
End Activity.

Module Signal.
(** payload of a [webrtc_signal] broadcast; the negotiation data itself is
    opaque to the hook *)
Record t := mk {
  target : string;
  from : string;
  signal : nat
}.
End Signal.

Inductive Broadcast :=
| VoiceActivityMsg (p : Activity.t)
| WebRTCSignalMsg (p : Signal.t).

(** ** Renders and closures

    A callback sees the props and state variables of the render that
    created it.  [useCallback] hands out the callback of an earlier render
    for as long as its dependency list is unchanged. *)

Module Render.
Record t := mk {
  channelId : string;
  nickname : string;
  isEnabled : bool;
  isConnected : bool;
  isMuted : bool;
  isDeafened : bool
}.
End Render.

(** ** Platform objects *)

Inductive TrackKind := AudioTrack | VideoTrack.

Record MediaTrack := mkTrack {
  kind : TrackKind;
  enabled : bool;
  stopped : bool
}.

(** A [MediaStream] is the list of its tracks, by reference: [list nat]. *)

Record Analyser := mkAnalyser {
  fftSize : nat;
  smoothingTimeConstant : Q
}.

Definition frequencyBinCount (a : Analyser) : nat := Nat.div (fftSize a) 2.

(** A simple-peer instance together with what its event handlers closed
    over: [targetUser] and the render that created [createPeer]. *)
Record PeerObj := mkPeer {
  target : string;
  initiator : bool;
  stream : option (list nat);
  destroyed : bool;
  closeEmitted : bool;
  signalled : list nat;
  creator : Render.t
}.

(** A relay channel together with what its handlers closed over: the render
    of [connectToVoice] and the render of the [createPeer] it uses. *)
Record Channel := mkChannel {
  topic : string;
  presenceKey : string;
  subscribed : bool;
  tracked : bool;
  unsubscribed : bool;
  ch_render : Render.t;
  ch_createPeer : Render.t
}.

Record AudioEl := mkAudio {
  srcObject : option nat;
  autoplay : bool;
  volume : Q;
  paused : bool;
  inDocument : bool
}.

(** What a suspended [connectToVoice] waits for, with its closure. *)
Inductive Await :=
| AwaitCapture (r rcp rinit : Render.t)
| AwaitTrack.

Inductive CaptureResult :=
| Granted (firstFrame : list byte)
| Denied.

Inductive Outcome :=
| CaptureOutcome (res : CaptureResult)
| TrackOutcome (ok : bool).

(** ** The hook instance *)

Record Props := mkProps {
  p_channelId : string;
  p_nickname : string;
  p_isEnabled : bool
}.

Global Instance Props_eq_dec : EqDecision Props.
Proof. solve_decision. Defined.

Record Hook := mkHook {
  (* props of the last render *)
  props : Props;
  (* useState *)
  isConnected : bool;
  isMuted : bool;
  isDeafened : bool;
  voiceUsers : list VoiceUser.t;
  audioLevel : Q;
  connectionError : option string;
  (* useRef *)
  localStreamRef : option (list nat);
  audioContextRef : option nat;
  analyserRef : option Analyser;
  animationFrameRef : option nat;
  peersRef : gmap string nat;
  channelRef : option nat;
  remoteAudiosRef : gmap string nat;
  (* useCallback cells whose dependency lists do not cover what the
     callback reads: the render that created [initializeAudio] (deps [[]])
     and the one that created [createPeer] (deps [[nickname]]) *)
  memo_initializeAudio : Render.t;
  memo_createPeer : Render.t;
  (* platform objects, by allocation order *)
  tracks : list MediaTrack;
  audioContexts : list bool;           (* [true]: state is 'closed' *)
  peerObjs : list PeerObj;
  channels : list Channel;
  audios : list AudioEl;
  (* platform bookkeeping *)
  captureRequests : nat;               (* calls of getUserMedia so far *)
  frames : list (nat * Render.t);      (* scheduled animation frames *)
  nextFrame : nat;
  outbox : list (nat * Broadcast);     (* messages sent, with the channel *)
  pending : list Await                 (* suspended connectToVoice calls *)
}.

Definition set_props (v : Props) (s : Hook) : Hook :=
  mkHook v (isConnected s) (isMuted s) (isDeafened s) (voiceUsers s)
    (audioLevel s) (connectionError s) (localStreamRef s) (audioContextRef s)
    (analyserRef s) (animationFrameRef s) (peersRef s) (channelRef s)
    (remoteAudiosRef s) (memo_initializeAudio s) (memo_createPeer s)
    (tracks s) (audioContexts s) (peerObjs s) (channels s) (audios s)
    (captureRequests s) (frames s) (nextFrame s) (outbox s) (pending s).

Definition set_isConnected (v : bool) (s : Hook) : Hook :=
  mkHook (props s) v (isMuted s) (isDeafened s) (voiceUsers s) (audioLevel s)
    (connectionError s) (localStreamRef s) (audioContextRef s) (analyserRef s)
    (animationFrameRef s) (peersRef s) (channelRef s) (remoteAudiosRef s)
    (memo_initializeAudio s) (memo_createPeer s) (tracks s) (audioContexts s)
    (peerObjs s) (channels s) (audios s) (captureRequests s) (frames s)
    (nextFrame s) (outbox s) (pending s).

Definition set_isMuted (v : bool) (s : Hook) : Hook :=
  mkHook (props s) (isConnected s) v (isDeafened s) (voiceUsers s)
    (audioLevel s) (connectionError s) (localStreamRef s) (audioContextRef s)
    (analyserRef s) (animationFrameRef s) (peersRef s) (channelRef s)
    (remoteAudiosRef s) (memo_initializeAudio s) (memo_createPeer s)
    (tracks s) (audioContexts s) (peerObjs s) (channels s) (audios s)
    (captureRequests s) (frames s) (nextFrame s) (outbox s) (pending s).

Definition set_isDeafened (v : bool) (s : Hook) : Hook :=
  mkHook (props s) (isConnected s) (isMuted s) v (voiceUsers s) (audioLevel s)
    (connectionError s) (localStreamRef s) (audioContextRef s) (analyserRef s)
    (animationFrameRef s) (peersRef s) (channelRef s) (remoteAudiosRef s)
    (memo_initializeAudio s) (memo_createPeer s) (tracks s) (audioContexts s)
    (peerObjs s) (channels s) (audios s) (captureRequests s) (frames s)
    (nextFrame s) (outbox s) (pending s).

Definition set_voiceUsers (v : list VoiceUser.t) (s : Hook) : Hook :=
  mkHook (props s) (isConnected s) (isMuted s) (isDeafened s) v (audioLevel s)
    (connectionError s) (localStreamRef s) (audioContextRef s) (analyserRef s)
    (animationFrameRef s) (peersRef s) (channelRef s) (remoteAudiosRef s)
    (memo_initializeAudio s) (memo_createPeer s) (tracks s) (audioContexts s)
    (peerObjs s) (channels s) (audios s) (captureRequests s) (frames s)
    (nextFrame s) (outbox s) (pending s).

Definition set_audioLevel (v : Q) (s : Hook) : Hook :=
  mkHook (props s) (isConnected s) (isMuted s) (isDeafened s) (voiceUsers s) v
    (connectionError s) (localStreamRef s) (audioContextRef s) (analyserRef s)
    (animationFrameRef s) (peersRef s) (channelRef s) (remoteAudiosRef s)
    (memo_initializeAudio s) (memo_createPeer s) (tracks s) (audioContexts s)
    (peerObjs s) (channels s) (audios s) (captureRequests s) (frames s)
    (nextFrame s) (outbox s) (pending s).

Definition set_connectionError (v : option string) (s : Hook) : Hook :=
  mkHook (props s) (isConnected s) (isMuted s) (isDeafened s) (voiceUsers s)
    (audioLevel s) v (localStreamRef s) (audioContextRef s) (analyserRef s)
    (animationFrameRef s) (peersRef s) (channelRef s) (remoteAudiosRef s)
    (memo_initializeAudio s) (memo_createPeer s) (tracks s) (audioContexts s)
    (peerObjs s) (channels s) (audios s) (captureRequests s) (frames s)
    (nextFrame s) (outbox s) (pending s).

Definition set_localStreamRef (v : option (list nat)) (s : Hook) : Hook :=
  mkHook (props s) (isConnected s) (isMuted s) (isDeafened s) (voiceUsers s)
    (audioLevel s) (connectionError s) v (audioContextRef s) (analyserRef s)
    (animationFrameRef s) (peersRef s) (channelRef s) (remoteAudiosRef s)
    (memo_initializeAudio s) (memo_createPeer s) (tracks s) (audioContexts s)
    (peerObjs s) (channels s) (audios s) (captureRequests s) (frames s)
    (nextFrame s) (outbox s) (pending s).

Definition set_audioContextRef (v : option nat) (s : Hook) : Hook :=
  mkHook (props s) (isConnected s) (isMuted s) (isDeafened s) (voiceUsers s)
    (audioLevel s) (connectionError s) (localStreamRef s) v (analyserRef s)
    (animationFrameRef s) (peersRef s) (channelRef s) (remoteAudiosRef s)
    (memo_initializeAudio s) (memo_createPeer s) (tracks s) (audioContexts s)
    (peerObjs s) (channels s) (audios s) (captureRequests s) (frames s)
    (nextFrame s) (outbox s) (pending s).

Definition set_analyserRef (v : option Analyser) (s : Hook) : Hook :=
  mkHook (props s) (isConnected s) (isMuted s) (isDeafened s) (voiceUsers s)
    (audioLevel s) (connectionError s) (localStreamRef s) (audioContextRef s)
    v (animationFrameRef s) (peersRef s) (channelRef s) (remoteAudiosRef s)
    (memo_initializeAudio s) (memo_createPeer s) (tracks s) (audioContexts s)
    (peerObjs s) (channels s) (audios s) (captureRequests s) (frames s)
    (nextFrame s) (outbox s) (pending s).

Definition set_animationFrameRef (v : option nat) (s : Hook) : Hook :=
  mkHook (props s) (isConnected s) (isMuted s) (isDeafened s) (voiceUsers s)
    (audioLevel s) (connectionError s) (localStreamRef s) (audioContextRef s)
    (analyserRef s) v (peersRef s) (channelRef s) (remoteAudiosRef s)
    (memo_initializeAudio s) (memo_createPeer s) (tracks s) (audioContexts s)
    (peerObjs s) (channels s) (audios s) (captureRequests s) (frames s)
    (nextFrame s) (outbox s) (pending s).

Definition set_peersRef (v : gmap string nat) (s : Hook) : Hook :=
  mkHook (props s) (isConnected s) (isMuted s) (isDeafened s) (voiceUsers s)
    (audioLevel s) (connectionError s) (localStreamRef s) (audioContextRef s)
    (analyserRef s) (animationFrameRef s) v (channelRef s) (remoteAudiosRef s)
    (memo_initializeAudio s) (memo_createPeer s) (tracks s) (audioContexts s)
    (peerObjs s) (channels s) (audios s) (captureRequests s) (frames s)
    (nextFrame s) (outbox s) (pending s).

Definition set_channelRef (v : option nat) (s : Hook) : Hook :=
  mkHook (props s) (isConnected s) (isMuted s) (isDeafened s) (voiceUsers s)
    (audioLevel s) (connectionError s) (localStreamRef s) (audioContextRef s)
    (analyserRef s) (animationFrameRef s) (peersRef s) v (remoteAudiosRef s)
    (memo_initializeAudio s) (memo_createPeer s) (tracks s) (audioContexts s)
    (peerObjs s) (channels s) (audios s) (captureRequests s) (frames s)
    (nextFrame s) (outbox s) (pending s).

Definition set_remoteAudiosRef (v : gmap string nat) (s : Hook) : Hook :=
  mkHook (props s) (isConnected s) (isMuted s) (isDeafened s) (voiceUsers s)
    (audioLevel s) (connectionError s) (localStreamRef s) (audioContextRef s)
    (analyserRef s) (animationFrameRef s) (peersRef s) (channelRef s) v
    (memo_initializeAudio s) (memo_createPeer s) (tracks s) (audioContexts s)
    (peerObjs s) (channels s) (audios s) (captureRequests s) (frames s)
    (nextFrame s) (outbox s) (pending s).

Definition set_memo_initializeAudio (v : Render.t) (s : Hook) : Hook :=
  mkHook (props s) (isConnected s) (isMuted s) (isDeafened s) (voiceUsers s)
    (audioLevel s) (connectionError s) (localStreamRef s) (audioContextRef s)
    (analyserRef s) (animationFrameRef s) (peersRef s) (channelRef s)
    (remoteAudiosRef s) v (memo_createPeer s) (tracks s) (audioContexts s)
    (peerObjs s) (channels s) (audios s) (captureRequests s) (frames s)
    (nextFrame s) (outbox s) (pending s).

Definition set_memo_createPeer (v : Render.t) (s : Hook) : Hook :=
  mkHook (props s) (isConnected s) (isMuted s) (isDeafened s) (voiceUsers s)
    (audioLevel s) (connectionError s) (localStreamRef s) (audioContextRef s)
    (analyserRef s) (animationFrameRef s) (peersRef s) (channelRef s)
    (remoteAudiosRef s) (memo_initializeAudio s) v (tracks s)
    (audioContexts s) (peerObjs s) (channels s) (audios s) (captureRequests s)
    (frames s) (nextFrame s) (outbox s) (pending s).

Definition set_tracks (v : list MediaTrack) (s : Hook) : Hook :=
  mkHook (props s) (isConnected s) (isMuted s) (isDeafened s) (voiceUsers s)
    (audioLevel s) (connectionError s) (localStreamRef s) (audioContextRef s)
    (analyserRef s) (animationFrameRef s) (peersRef s) (channelRef s)
    (remoteAudiosRef s) (memo_initializeAudio s) (memo_createPeer s) v
    (audioContexts s) (peerObjs s) (channels s) (audios s) (captureRequests s)
    (frames s) (nextFrame s) (outbox s) (pending s).

Definition set_audioContexts (v : list bool) (s : Hook) : Hook :=
  mkHook (props s) (isConnected s) (isMuted s) (isDeafened s) (voiceUsers s)
    (audioLevel s) (connectionError s) (localStreamRef s) (audioContextRef s)
    (analyserRef s) (animationFrameRef s) (peersRef s) (channelRef s)
    (remoteAudiosRef s) (memo_initializeAudio s) (memo_createPeer s)
    (tracks s) v (peerObjs s) (channels s) (audios s) (captureRequests s)
    (frames s) (nextFrame s) (outbox s) (pending s).

Definition set_peerObjs (v : list PeerObj) (s : Hook) : Hook :=
  mkHook (props s) (isConnected s) (isMuted s) (isDeafened s) (voiceUsers s)
    (audioLevel s) (connectionError s) (localStreamRef s) (audioContextRef s)
    (analyserRef s) (animationFrameRef s) (peersRef s) (channelRef s)
    (remoteAudiosRef s) (memo_initializeAudio s) (memo_createPeer s)
    (tracks s) (audioContexts s) v (channels s) (audios s) (captureRequests s)
    (frames s) (nextFrame s) (outbox s) (pending s).

Definition set_channels (v : list Channel) (s : Hook) : Hook :=
  mkHook (props s) (isConnected s) (isMuted s) (isDeafened s) (voiceUsers s)
    (audioLevel s) (connectionError s) (localStreamRef s) (audioContextRef s)
    (analyserRef s) (animationFrameRef s) (peersRef s) (channelRef s)
    (remoteAudiosRef s) (memo_initializeAudio s) (memo_createPeer s)
    (tracks s) (audioContexts s) (peerObjs s) v (audios s) (captureRequests s)
    (frames s) (nextFrame s) (outbox s) (pending s).

Definition set_audios (v : list AudioEl) (s : Hook) : Hook :=
  mkHook (props s) (isConnected s) (isMuted s) (isDeafened s) (voiceUsers s)
    (audioLevel s) (connectionError s) (localStreamRef s) (audioContextRef s)
    (analyserRef s) (animationFrameRef s) (peersRef s) (channelRef s)
    (remoteAudiosRef s) (memo_initializeAudio s) (memo_createPeer s)
    (tracks s) (audioContexts s) (peerObjs s) (channels s) v
    (captureRequests s) (frames s) (nextFrame s) (outbox s) (pending s).

Definition set_captureRequests (v : nat) (s : Hook) : Hook :=
  mkHook (props s) (isConnected s) (isMuted s) (isDeafened s) (voiceUsers s)
    (audioLevel s) (connectionError s) (localStreamRef s) (audioContextRef s)
    (analyserRef s) (animationFrameRef s) (peersRef s) (channelRef s)
    (remoteAudiosRef s) (memo_initializeAudio s) (memo_createPeer s)
    (tracks s) (audioContexts s) (peerObjs s) (channels s) (audios s) v
    (frames s) (nextFrame s) (outbox s) (pending s).

Definition set_frames (v : list (nat * Render.t)) (s : Hook) : Hook :=
  mkHook (props s) (isConnected s) (isMuted s) (isDeafened s) (voiceUsers s)
    (audioLevel s) (connectionError s) (localStreamRef s) (audioContextRef s)
    (analyserRef s) (animationFrameRef s) (peersRef s) (channelRef s)
    (remoteAudiosRef s) (memo_initializeAudio s) (memo_createPeer s)
    (tracks s) (audioContexts s) (peerObjs s) (channels s) (audios s)
    (captureRequests s) v (nextFrame s) (outbox s) (pending s).

Definition set_nextFrame (v : nat) (s : Hook) : Hook :=
  mkHook (props s) (isConnected s) (isMuted s) (isDeafened s) (voiceUsers s)
    (audioLevel s) (connectionError s) (localStreamRef s) (audioContextRef s)
    (analyserRef s) (animationFrameRef s) (peersRef s) (channelRef s)
    (remoteAudiosRef s) (memo_initializeAudio s) (memo_createPeer s)
    (tracks s) (audioContexts s) (peerObjs s) (channels s) (audios s)
    (captureRequests s) (frames s) v (outbox s) (pending s).

Definition set_outbox (v : list (nat * Broadcast)) (s : Hook) : Hook :=
  mkHook (props s) (isConnected s) (isMuted s) (isDeafened s) (voiceUsers s)
    (audioLevel s) (connectionError s) (localStreamRef s) (audioContextRef s)
    (analyserRef s) (animationFrameRef s) (peersRef s) (channelRef s)
    (remoteAudiosRef s) (memo_initializeAudio s) (memo_createPeer s)
    (tracks s) (audioContexts s) (peerObjs s) (channels s) (audios s)
    (captureRequests s) (frames s) (nextFrame s) v (pending s).

Definition set_pending (v : list Await) (s : Hook) : Hook :=
  mkHook (props s) (isConnected s) (isMuted s) (isDeafened s) (voiceUsers s)
    (audioLevel s) (connectionError s) (localStreamRef s) (audioContextRef s)
    (analyserRef s) (animationFrameRef s) (peersRef s) (channelRef s)
    (remoteAudiosRef s) (memo_initializeAudio s) (memo_createPeer s)
    (tracks s) (audioContexts s) (peerObjs s) (channels s) (audios s)
    (captureRequests s) (frames s) (nextFrame s) (outbox s) v.

(** The render that is current in state [s]: what a callback created now
    closes over. *)
Definition currentRender (s : Hook) : Render.t :=
  Render.mk (p_channelId (props s)) (p_nickname (props s))
    (p_isEnabled (props s)) (isConnected s) (isMuted s) (isDeafened s).

(** ** Platform operations *)

(** [if (channelRef.current) channelRef.current.send(m)] *)
Definition send (m : Broadcast) (s : Hook) : Hook :=
  match channelRef s with
  | Some c => set_outbox (outbox s ++ [(c, m)]) s
  | None => s
  end.

(** [requestAnimationFrame(detectVoice)], stored in [animationFrameRef] *)
Definition requestAnimationFrame (r : Render.t) (s : Hook) : Hook :=
  set_animationFrameRef (Some (nextFrame s))
    (set_nextFrame (S (nextFrame s))
       (set_frames (frames s ++ [(nextFrame s, r)]) s)).

Definition cancelAnimationFrame (id : nat) (s : Hook) : Hook :=
  set_frames (filter (λ f, f.1 ≠ id) (frames s)) s.

Definition stopTrack (t : MediaTrack) : MediaTrack :=
  mkTrack (kind t) (enabled t) true.

Definition setEnabled (b : bool) (t : MediaTrack) : MediaTrack :=
  mkTrack (kind t) b (stopped t).

(** [stream.getTracks().forEach(track => track.stop())] *)
Definition stopTracks (st : list nat) (ts : list MediaTrack) : list MediaTrack :=
  foldl (λ acc t, alter stopTrack t acc) ts st.

Definition isAudio (ts : list MediaTrack) (t : nat) : bool :=
  match ts !! t with
  | Some tr => match kind tr with AudioTrack => true | VideoTrack => false end
  | None => false
  end.

(** [stream.getAudioTracks()] *)
Definition getAudioTracks (st : list nat) (ts : list MediaTrack) : list nat :=
  List.filter (isAudio ts) st.

(** [peer.destroy()]: simple-peer marks the instance destroyed and emits
    'close' from a microtask (see [microtasks]); a second call does
    nothing. *)
Definition markDestroyed (p : PeerObj) : PeerObj :=
  mkPeer (target p) (initiator p) (stream p) true (closeEmitted p)
    (signalled p) (creator p).

Definition markClosed (p : PeerObj) : PeerObj :=
  mkPeer (target p) (initiator p) (stream p) true true
    (signalled p) (creator p).

Definition peerDestroy (id : nat) (s : Hook) : Hook :=
  set_peerObjs (alter markDestroyed id (peerObjs s)) s.

(** [try { peer.signal(signal) } catch { log }]: simple-peer throws on a
    destroyed instance, which the caller only logs. *)
Definition applySignal (sig : nat) (p : PeerObj) : PeerObj :=
  if destroyed p then p
  else mkPeer (target p) (initiator p) (stream p) (destroyed p)
         (closeEmitted p) (signalled p ++ [sig]) (creator p).

Definition peerSignal (id : nat) (sig : nat) (s : Hook) : Hook :=
  set_peerObjs (alter (applySignal sig) id (peerObjs s)) s.

Definition setVolume (v : Q) (a : AudioEl) : AudioEl :=
  mkAudio (srcObject a) (autoplay a) v (paused a) (inDocument a).

(** [audio.pause(); audio.srcObject = null; parentNode.removeChild(audio)] *)
Definition detachAudio (a : AudioEl) : AudioEl :=
  mkAudio None (autoplay a) (volume a) true false.

(** ** The callbacks of the hook *)

(** [removeRemoteAudio] (deps [[]], reads no render variable) *)
Definition removeRemoteAudio (userId : string) (s : Hook) : Hook :=
  match remoteAudiosRef s !! userId with
  | Some a =>
      set_remoteAudiosRef (delete userId (remoteAudiosRef s))
        (set_audios (alter detachAudio a (audios s)) s)
  | None => s
  end.

(** [playRemoteAudio] of render [r]: [audio.volume = isDeafened ? 0 : 1]
    reads the [isDeafened] of [r]. *)
Definition playRemoteAudio (r : Render.t) (remoteStream : nat)
    (userId : string) (s : Hook) : Hook :=
  let s1 := removeRemoteAudio userId s in
  let audio :=
    mkAudio (Some remoteStream) true
      (if Render.isDeafened r then 0 else 1) false true in
  set_remoteAudiosRef (<[userId := length (audios s1)]> (remoteAudiosRef s1))
    (set_audios (audios s1 ++ [audio]) s1).

(** [createPeer] of render [r].  The new instance is stored under
    [targetUser]; its handlers close over [targetUser] and over [r], through
    which they reach [nickname] and the [playRemoteAudio] of [r]. *)
Definition createPeer (r : Render.t) (targetUser : string) (init : bool)
    (s : Hook) : Hook :=
  let peer := mkPeer targetUser init (localStreamRef s) false false [] r in
  set_peersRef (<[targetUser := length (peerObjs s)]> (peersRef s))
    (set_peerObjs (peerObjs s ++ [peer]) s).

(** [peer.on('signal', ...)] *)
Definition onPeerSignal (p : PeerObj) (data : nat) (s : Hook) : Hook :=
  send (WebRTCSignalMsg
          (Signal.mk (target p) (Render.nickname (creator p)) data)) s.

(** [peer.on('stream', ...)] *)
Definition onPeerStream (p : PeerObj) (remoteStream : nat) (s : Hook) : Hook :=
  playRemoteAudio (creator p) remoteStream (target p) s.

(** [peer.on('error', ...)] *)
Definition onPeerError (p : PeerObj) (s : Hook) : Hook :=
  set_peersRef (delete (target p) (peersRef s)) s.

(** [peer.on('close', ...)] *)
Definition onPeerClose (p : PeerObj) (s : Hook) : Hook :=
  removeRemoteAudio (target p)
    (set_peersRef (delete (target p) (peersRef s)) s).

(** *** Voice activity detection *)

(** [analyser.getByteFrequencyData(dataArray)]: the platform fills the
    array, whose length was fixed at [frequencyBinCount] when the loop was
    started, with one byte per bin. *)
Definition getByteFrequencyData (a : Analyser) (input : list byte) : list byte :=
  resize (frequencyBinCount a) x00 input.

Definition byteValue (b : byte) : Z := Z.of_N (Byte.to_N b).

(** [dataArray.reduce((a, b) => a + b)] on a non-empty array *)
Definition reduceSum (first : byte) (rest : list byte) : Z :=
  foldl (λ a b, (a + byteValue b)%Z) (byteValue first) rest.

(** [Math.min(average / 128, 1)] with [average = sum / dataArray.length].
    The sum is an integer below 2^15; for the 128 bins of the analyser the
    hook configures, both divisions are by a power of two and exact. *)
Definition normalizedLevel (first : byte) (rest : list byte) : Q :=
  let average :=
    (inject_Z (reduceSum first rest)
       / inject_Z (Z.of_nat (length (first :: rest))))%Q in
  Qmin (average / inject_Z 128)%Q 1%Q.

(** The payload [detectVoice] broadcasts for a level. *)
Definition activitySample (r : Render.t) (level : Q) : Activity.t :=
  Activity.mk (Render.nickname r) (num_gt level lit_0_15) level
    (Render.isMuted r).

(** [detectVoice], created by the [startVoiceActivityDetection] of render
    [r]: it reads [nickname] and [isMuted] of [r]. *)
Definition detectVoice (r : Render.t) (input : list byte) (s : Hook) : Hook :=
  match analyserRef s with
  | None => s
  | Some a =>
      match getByteFrequencyData a input with
      | [] => s   (* reduce of an empty array without initial value throws *)
      | first :: rest =>
          let level := normalizedLevel first rest in
          let s1 := set_audioLevel level s in
          let s2 :=
            if num_gt level lit_0_05
            then send (VoiceActivityMsg (activitySample r level)) s1
            else s1 in
          requestAnimationFrame r s2
      end
  end.

Definition startVoiceActivityDetection (r : Render.t) (input : list byte)
    (s : Hook) : Hook :=
  match analyserRef s with
  | None => s
  | Some _ => detectVoice r input s
  end.

(** *** Relay handlers

    They are registered by [connectToVoice] of render [r], which uses the
    [createPeer] of render [rcp]. *)

Definition defaultUser (key : string) : VoiceUser.t :=
  VoiceUser.mk key key false false 0.

Definition has (m : gmap string nat) (key : string) : bool :=
  match m !! key with Some _ => true | None => false end.

(** The body shared by the 'sync' loop and the 'join' handler. *)
Definition initiateIfSmaller (r rcp : Render.t) (key : string) (s : Hook) : Hook :=
  if bool_decide (key ≠ Render.nickname r) && negb (has (peersRef s) key)
  then if str_lt (Render.nickname r) key then createPeer rcp key true s else s
  else s.

(** presence 'sync'; [roster] is [Object.keys(channelRef.current.presenceState())] *)
Definition onPresenceSync (r rcp : Render.t) (roster : list string)
    (s : Hook) : Hook :=
  match channelRef s with
  | None => s   (* reading presenceState of null throws: nothing is done *)
  | Some _ =>
      let users := map defaultUser roster in
      foldl (λ acc user, initiateIfSmaller r rcp (VoiceUser.nickname user) acc)
        (set_voiceUsers users s) users
  end.

(** presence 'join' *)
Definition onPresenceJoin (r rcp : Render.t) (key : string) (s : Hook) : Hook :=
  initiateIfSmaller r rcp key s.

(** presence 'leave' *)
Definition onPresenceLeave (key : string) (s : Hook) : Hook :=
  let s1 :=
    match peersRef s !! key with
    | Some peer =>
        let s' := peerDestroy peer s in
        set_peersRef (delete key (peersRef s')) s'
    | None => s
    end in
  let s2 := removeRemoteAudio key s1 in
  set_voiceUsers
    (filter (λ user, VoiceUser.nickname user ≠ key) (voiceUsers s2)) s2.

Definition applyActivity (payload : Activity.t) (user : VoiceUser.t) : VoiceUser.t :=
  if bool_decide (VoiceUser.nickname user = Activity.userId payload)
  then VoiceUser.mk (VoiceUser.id user) (VoiceUser.nickname user)
         (Activity.isMuted payload) (Activity.isSpeaking payload)
         (Activity.audioLevel payload)
  else user.

(** broadcast 'voice_activity' *)
Definition onVoiceActivity (r : Render.t) (payload : Activity.t) (s : Hook) : Hook :=
  if bool_decide (Activity.userId payload ≠ Render.nickname r)
  then set_voiceUsers (map (applyActivity payload) (voiceUsers s)) s
  else s.

(** [handleWebRTCSignal] (deps [[createPeer]]) *)
Definition handleWebRTCSignal (rcp : Render.t) (payload : Signal.t)
    (s : Hook) : Hook :=
  match peersRef s !! Signal.from payload with
  | Some peer => peerSignal peer (Signal.signal payload) s
  | None =>
      let peer := length (peerObjs s) in
      peerSignal peer (Signal.signal payload)
        (createPeer rcp (Signal.from payload) false s)
  end.

(** broadcast 'webrtc_signal' *)
Definition onWebRTCSignal (r rcp : Render.t) (payload : Signal.t)
    (s : Hook) : Hook :=
  if bool_decide (Signal.target payload = Render.nickname r)
  then handleWebRTCSignal rcp payload s
  else s.

(** *** Connecting *)

Definition msg_denied : string :=
  "Microphone access denied. Please allow microphone access and try again.".

Definition msg_failed : string :=
  "Failed to connect to voice chat. Please check your microphone permissions.".

(** [initializeAudio] after [getUserMedia] has settled.  The second
    component is [false] when the function rethrows.  The callback has an
    empty dependency list: [rinit] is the render that mounted the hook. *)
Definition initializeAudio_settled (rinit : Render.t) (res : CaptureResult)
    (s : Hook) : Hook * bool :=
  match res with
  | Granted firstFrame =>
      let s1 :=
        set_localStreamRef (Some [length (tracks s)])
          (set_tracks (tracks s ++ [mkTrack AudioTrack true false]) s) in
      let s2 :=
        set_audioContextRef (Some (length (audioContexts s1)))
          (set_audioContexts (audioContexts s1 ++ [false]) s1) in
      let s3 := set_analyserRef (Some (mkAnalyser 256 lit_0_8)) s2 in
      (startVoiceActivityDetection rinit firstFrame s3, true)
  | Denied => (set_connectionError (Some msg_denied) s, false)
  end.

(** [connectToVoice] of render [r], up to its first suspension: the guard,
    [setConnectionError(null)], and the call of [getUserMedia] inside
    [initializeAudio]. *)
Definition connectToVoice (r rcp rinit : Render.t) (s : Hook) : Hook :=
  if negb (Render.isEnabled r) || Render.isConnected r then s
  else
    let s1 := set_connectionError None s in
    set_pending (pending s1 ++ [AwaitCapture r rcp rinit])
      (set_captureRequests (S (captureRequests s1)) s1).

(** The [catch] block of [connectToVoice]. *)
Definition connectFailed (s : Hook) : Hook :=
  set_connectionError (Some msg_failed) s.

(** [connectToVoice] resumed when [getUserMedia] settles.  On success the
    channel is created, the five handlers are registered, [subscribe()] is
    called and, one microtask later, [track(...)], on which the function
    suspends again. *)
Definition connectToVoice_afterCapture (r rcp rinit : Render.t)
    (res : CaptureResult) (s : Hook) : Hook :=
  match initializeAudio_settled rinit res s with
  | (s1, false) => connectFailed s1
  | (s1, true) =>
      let ch :=
        mkChannel ("voice:" ++ Render.channelId r) (Render.nickname r)
          true true false r rcp in
      set_pending (pending s1 ++ [AwaitTrack])
        (set_channelRef (Some (length (channels s1)))
           (set_channels (channels s1 ++ [ch]) s1))
  end.

(** [connectToVoice] resumed when [track(...)] settles. *)
Definition connectToVoice_afterTrack (ok : bool) (s : Hook) : Hook :=
  if ok then set_isConnected true s else connectFailed s.

(** *** Disconnecting *)

Definition unsubscribe (c : Channel) : Channel :=
  mkChannel (topic c) (presenceKey c) (subscribed c) (tracked c) true
    (ch_render c) (ch_createPeer c).

Definition isClosed (ctxs : list bool) (c : nat) : bool :=
  match ctxs !! c with Some b => b | None => false end.

(** [peersRef.current.forEach((peer, userId) => { peer.destroy();
    removeRemoteAudio(userId) })] over the entries [l] of the map *)
Definition closePeers (l : list (string * nat)) (s : Hook) : Hook :=
  foldl (λ acc entry, removeRemoteAudio entry.1 (peerDestroy entry.2 acc)) s l.

(** [if (animationFrameRef.current) cancelAnimationFrame(...)]; a frame id
    is a positive number, so [0] is the only falsy one. *)
Definition stopSampling (s : Hook) : Hook :=
  match animationFrameRef s with
  | Some (S _ as id) => cancelAnimationFrame id s
  | _ => s
  end.

(** [if (localStreamRef.current) { ...forEach(track => track.stop());
    localStreamRef.current = null }] *)
Definition releaseLocalStream (s : Hook) : Hook :=
  match localStreamRef s with
  | Some st => set_localStreamRef None (set_tracks (stopTracks st (tracks s)) s)
  | None => s
  end.

(** [if (audioContextRef.current && state !== 'closed') { close();
    audioContextRef.current = null }] *)
Definition closeAudioContext (s : Hook) : Hook :=
  match audioContextRef s with
  | Some c =>
      if isClosed (audioContexts s) c then s
      else set_audioContextRef None
             (set_audioContexts (<[c := true]> (audioContexts s)) s)
  | None => s
  end.

(** [if (channelRef.current) { unsubscribe(); channelRef.current = null }] *)
Definition leaveChannel (s : Hook) : Hook :=
  match channelRef s with
  | Some c =>
      set_channelRef None (set_channels (alter unsubscribe c (channels s)) s)
  | None => s
  end.

(** [disconnectFromVoice] (deps [[removeRemoteAudio]], reads no render
    variable), statement by statement *)
Definition disconnectFromVoice (s : Hook) : Hook :=
  let s1 := stopSampling s in
  let s2 := releaseLocalStream s1 in
  let s3 := closeAudioContext s2 in
  let s4 := closePeers (map_to_list (peersRef s3)) s3 in
  let s5 := set_peersRef ∅ s4 in
  let s6 := leaveChannel s5 in
  set_connectionError None
    (set_audioLevel 0 (set_voiceUsers [] (set_isConnected false s6))).

(** *** Mute and deafen *)

(** [toggleMute] of render [r] (deps [[isMuted, nickname]]) *)
Definition toggleMute (r : Render.t) (s : Hook) : Hook :=
  match localStreamRef s with
  | Some st =>
      match getAudioTracks st (tracks s) with
      | audioTrack :: _ =>
          let s1 :=
            set_tracks
              (alter (setEnabled (Render.isMuted r)) audioTrack (tracks s)) s in
          let s2 := set_isMuted (negb (Render.isMuted r)) s1 in
          send (VoiceActivityMsg
                  (Activity.mk (Render.nickname r) false 0
                     (negb (Render.isMuted r)))) s2
      | [] => s
      end
  | None => s
  end.

(** [toggleDeafen] of render [r] (deps [[isDeafened]]) *)
Definition toggleDeafen (r : Render.t) (s : Hook) : Hook :=
  let newDeafenState := negb (Render.isDeafened r) in
  let s1 := set_isDeafened newDeafenState s in
  set_audios
    (foldl (λ acc entry, alter (setVolume (if newDeafenState then 0 else 1))
                           entry.2 acc)
       (audios s1) (map_to_list (remoteAudiosRef s1))) s1.

(** ** Renders, effects and events *)

(** The body of the connection effect (deps [[isEnabled, channelId,
    nickname]]), run with the callbacks of the render that scheduled it. *)
Definition connectionEffect (r rcp rinit : Render.t) (s : Hook) : Hook :=
  if Render.isEnabled r && str_truthy (Render.channelId r)
     && str_truthy (Render.nickname r)
  then connectToVoice r rcp rinit s
  else disconnectFromVoice s.

(** [useCallback(..., [nickname])] for [createPeer]: the callback of the
    earlier render [old] is kept unless [nickname] differs in [now]. *)
Definition useCallback_createPeer (old now : Render.t) : Render.t :=
  if bool_decide (Render.nickname old = Render.nickname now) then old else now.

(** The parent renders the hook with props [p].  When a dependency of the
    connection effect changed, the cleanup of the previous effect
    ([disconnectFromVoice]) runs, then the effect of the new render, whose
    [connectToVoice] closed over the variables as rendered. *)
Definition setProps (p : Props) (s : Hook) : Hook :=
  let s1 := set_props p s in
  let r := currentRender s1 in
  let s2 := set_memo_createPeer (useCallback_createPeer (memo_createPeer s1) r) s1 in
  if bool_decide (props s = p) then s2
  else connectionEffect r (memo_createPeer s2) (memo_initializeAudio s2)
         (disconnectFromVoice s2).

(** The state of [useState] and [useRef] at the first render. *)
Definition initial (p : Props) : Hook :=
  let r := Render.mk (p_channelId p) (p_nickname p) (p_isEnabled p)
             false false false in
  mkHook p false false false [] 0 None
    None None None None ∅ None ∅
    r r
    [] [] [] [] []
    0 [] 1 [] [].

(** Mounting runs the connection effect of the first render. *)
Definition mount (p : Props) : Hook :=
  let s := initial p in
  connectionEffect (currentRender s) (memo_createPeer s)
    (memo_initializeAudio s) s.

(** simple-peer emits 'close' from a microtask after [destroy()]. *)
Definition emitClose (id : nat) (s : Hook) : Hook :=
  match peerObjs s !! id with
  | Some p =>
      if destroyed p && negb (closeEmitted p)
      then onPeerClose p (set_peerObjs (alter markClosed id (peerObjs s)) s)
      else s
  | None => s
  end.

Definition microtasks (s : Hook) : Hook :=
  foldl (λ acc id, emitClose id acc) s (seq 0 (length (peerObjs s))).

(** A handler of channel [c] runs while [c] is joined. *)
Definition onChannel (c : nat) (h : Channel → Hook → Hook) (s : Hook) : Hook :=
  match channels s !! c with
  | Some ch => if subscribed ch && negb (unsubscribed ch) then h ch s else s
  | None => s
  end.

(** A handler of peer [id] runs while the instance is not destroyed. *)
Definition onPeer (id : nat) (h : PeerObj → Hook → Hook) (s : Hook) : Hook :=
  match peerObjs s !! id with
  | Some p => if destroyed p then s else h p s
  | None => s
  end.

(** simple-peer reports a failure by destroying the instance and emitting
    'error' and then 'close' from the same microtask. *)
Definition peerFails (id : nat) (s : Hook) : Hook :=
  onPeer id (λ p s,
    onPeerClose p
      (onPeerError p (set_peerObjs (alter markClosed id (peerObjs s)) s))) s.

(** The remote side closes the connection: 'close' alone. *)
Definition peerCloses (id : nat) (s : Hook) : Hook :=
  onPeer id (λ p s,
    onPeerClose p (set_peerObjs (alter markClosed id (peerObjs s)) s)) s.

(** The [i]-th suspended [connectToVoice] is resumed. *)
Definition settle (i : nat) (o : Outcome) (s : Hook) : Hook :=
  match pending s !! i, o with
  | Some (AwaitCapture r rcp rinit), CaptureOutcome res =>
      connectToVoice_afterCapture r rcp rinit res
        (set_pending (delete i (pending s)) s)
  | Some AwaitTrack, TrackOutcome ok =>
      connectToVoice_afterTrack ok (set_pending (delete i (pending s)) s)
  | _, _ => s
  end.

(** A scheduled animation frame fires. *)
Definition animationFrame (id : nat) (input : list byte) (s : Hook) : Hook :=
  match list_find (λ f, f.1 = id) (frames s) with
  | Some (_, (_, r)) => detectVoice r input (cancelAnimationFrame id s)
  | None => s
  end.

Inductive Event :=
| SetProps (p : Props)
| CallConnectToVoice
| CallDisconnectFromVoice
| CallToggleMute
| CallToggleDeafen
| Settle (i : nat) (o : Outcome)
| PresenceSync (c : nat) (roster : list string)
| PresenceJoin (c : nat) (key : string)
| PresenceLeave (c : nat) (key : string)
| VoiceActivity (c : nat) (payload : Activity.t)
| WebRTCSignal (c : nat) (payload : Signal.t)
| PeerSignal (id : nat) (data : nat)
| PeerStream (id : nat) (remoteStream : nat)
| PeerError (id : nat)
| PeerClosed (id : nat)
| AnimationFrame (id : nat) (input : list byte).

(** What one event does.  The callbacks the hook returns are those of the
    current render; [connectToVoice], [toggleMute] and [toggleDeafen] list
    every variable they read among their dependencies, so they close over
    [currentRender s]; [createPeer] and [initializeAudio] are the memoised
    ones. *)
Definition handle (e : Event) (s : Hook) : Hook :=
  match e with
  | SetProps p => setProps p s
  | CallConnectToVoice =>
      connectToVoice (currentRender s) (memo_createPeer s)
        (memo_initializeAudio s) s
  | CallDisconnectFromVoice => disconnectFromVoice s
  | CallToggleMute => toggleMute (currentRender s) s
  | CallToggleDeafen => toggleDeafen (currentRender s) s
  | Settle i o => settle i o s
  | PresenceSync c roster =>
      onChannel c (λ ch, onPresenceSync (ch_render ch) (ch_createPeer ch) roster) s
  | PresenceJoin c key =>
      onChannel c (λ ch, onPresenceJoin (ch_render ch) (ch_createPeer ch) key) s
  | PresenceLeave c key => onChannel c (λ _, onPresenceLeave key) s
  | VoiceActivity c payload =>
      onChannel c (λ ch, onVoiceActivity (ch_render ch) payload) s
  | WebRTCSignal c payload =>
      onChannel c (λ ch, onWebRTCSignal (ch_render ch) (ch_createPeer ch) payload) s
  | PeerSignal id data => onPeer id (λ p, onPeerSignal p data) s
  | PeerStream id remoteStream => onPeer id (λ p, onPeerStream p remoteStream) s
  | PeerError id => peerFails id s
  | PeerClosed id => peerCloses id s
  | AnimationFrame id input => animationFrame id input s
  end.

(** One task of the event loop.  The callbacks that one message of the
    platform triggers run one after the other in the same task: the realtime
    client calls the 'join', 'leave' and 'sync' callbacks of one presence
    diff from one message handler.  The microtasks queued meanwhile run when
    the last callback has returned.  Any list of callbacks is admitted as a
    task, which covers every grouping the platform makes. *)
Definition task (s : Hook) (es : list Event) : Hook :=
  microtasks (foldl (λ acc e, handle e acc) s es).

Definition runTasks (s : Hook) (tasks : list (list Event)) : Hook :=
  foldl task s tasks.

(** A task with a single callback, and a session in which every callback
    has a task of its own. *)
Definition step (s : Hook) (e : Event) : Hook := task s [e].

Definition run (s : Hook) (trace : list Event) : Hook := foldl step s trace.

(** The states a hook mounted with props [p] can be in between tasks. *)
Definition Reachable (p : Props) (s : Hook) : Prop :=
  ∃ tasks, s = runTasks (mount p) tasks.

(** ** The session state shown by the display layer

    [getVoiceStatusText] of VoiceControls: an error wins, then the
    connection flag.  The hook has no variable for Connecting: a session is
    connecting while a [connectToVoice] is suspended. *)
Inductive Status := Disconnected | Connected | Error.

Definition hasError (s : Hook) : bool :=
  match connectionError s with
  | Some e => str_truthy e
  | None => false
  end.

Definition status (s : Hook) : Status :=
  if hasError s then Error
  else if isConnected s then Connected else Disconnected.

Definition Connecting (s : Hook) : Prop := pending s ≠ [].

(** ** Notions used in the statements *)


(** A session at rest: not connected, no channel, no peer link. *)
Definition AtRest (s : Hook) : Prop :=
  isConnected s = false ∧ channelRef s = None ∧ peersRef s = ∅.

(** The peer map of [s] holds, under [key], an instance created by identity
    [who] toward [key] in role [init]. *)
Definition Link (s : Hook) (who key : string) (init : bool) : Prop :=
  ∃ id p, peersRef s !! key = Some id ∧ peerObjs s !! id = Some p
          ∧ target p = key ∧ initiator p = init
          ∧ Render.nickname (creator p) = who.

(** What holds of every state a mounted hook can be in.  The memoised
    [createPeer] belongs to a render with the current [nickname]; a
    suspended [connectToVoice] and the handlers of a channel use the
    [createPeer] of a render with their own [nickname]; an instance in
    initiator role points from the smaller identity to the larger; the
    analyser has the 256-point window the hook configures. *)
Definition peer_ok (p : PeerObj) : Prop :=
  initiator p = true → str_lt (Render.nickname (creator p)) (target p) = true.

Definition channel_ok (c : Channel) : Prop :=
  Render.nickname (ch_createPeer c) = Render.nickname (ch_render c).

Definition await_ok (a : Await) : Prop :=
  match a with
  | AwaitCapture r rcp _ => Render.nickname rcp = Render.nickname r
  | AwaitTrack => True
  end.

Definition Inv (s : Hook) : Prop :=
  Render.nickname (memo_createPeer s) = p_nickname (props s)
  ∧ Forall await_ok (pending s)
  ∧ Forall channel_ok (channels s)
  ∧ Forall peer_ok (peerObjs s)
  ∧ (∀ a, analyserRef s = Some a → fftSize a = 256).

(** ** Sample sessions used in the examples below *)

Definition alice_off : Props := mkProps "c1" "alice" false.
Definition alice_on : Props := mkProps "c1" "alice" true.

(** alice enables voice, capture is granted and the relay answers. *)
Definition connect_trace : list Event :=
  [SetProps alice_on;
   Settle 0 (CaptureOutcome (Granted []));
   Settle 0 (TrackOutcome true)].

Definition alice_connected : Hook := run (mount alice_off) connect_trace.

(** alice has enabled voice and the capture request is still open. *)
Definition alice_connecting : Hook := run (mount alice_off) [SetProps alice_on].

(** alice connects, mutes, leaves voice and joins again. *)
Definition alice_rejoined_muted : Hook :=
  run alice_connected
    ([CallToggleMute; SetProps alice_off] ++ connect_trace).

(** alice connects and deafens; then bob joins, alice opens the connection
    toward him and his stream is attached. *)
Definition bob_joins_deafened_alice : list Event :=
  [CallToggleDeafen; PresenceJoin 0 "bob"; PeerStream 0 42].

Definition alice_deafened_then_bob : Hook :=
  run alice_connected bob_joins_deafened_alice.

(** alice enables voice and disables it again before the capture request
    is answered; then access is granted and the relay answers. *)
Definition alice_late_capture : Hook :=
  run (mount alice_off)
    [SetProps alice_on; SetProps alice_off;
     Settle 0 (CaptureOutcome (Granted []));
     Settle 0 (TrackOutcome true)].

(** A frame in which every bin is at full scale. *)
Definition loud_frame : list byte := replicate 128 xff.

(** alice is connected and a sync lists bob, toward whom she opens a
    connection.  Then one of bob's presences leaves while another stays: the
    'leave' callback and the 'sync' callback, which still lists bob, run in
    one task. *)
Definition bob_flaps : list (list Event) :=
  [[PresenceSync 0 ["alice"; "bob"]];
   [PresenceLeave 0 "bob"; PresenceSync 0 ["alice"; "bob"]]].

Definition alice_bob_flapped : Hook := runTasks alice_connected bob_flaps.

(** The stream of the second connection toward bob arrives. *)
Definition alice_bob_flapped_playing : Hook :=
  run alice_bob_flapped [PeerStream 1 42].


(** ** The display layer (VoiceControls)

    The component renders the hook's outputs and holds the enable flag it
    passes in as [isEnabled]. *)

Inductive StatusText :=
| TextError | TextDisconnected | TextMuted | TextSpeaking | TextConnected.

Inductive StatusColor := Red500 | Gray500 | Yellow500 | Green500 | Blue500.

(** [getVoiceStatusColor] *)
Definition getVoiceStatusColor (s : Hook) : StatusColor :=
  if hasError s then Red500
  else if negb (isConnected s) then Gray500
  else if isMuted s then Yellow500
  else if num_gt (audioLevel s) lit_0_15 then Green500
  else Blue500.

(** [getVoiceStatusText] *)
Definition getVoiceStatusText (s : Hook) : StatusText :=
  if hasError s then TextError
  else if negb (isConnected s) then TextDisconnected
  else if isMuted s then TextMuted
  else if num_gt (audioLevel s) lit_0_15 then TextSpeaking
  else TextConnected.

(** [handleToggleVoice]: [setIsVoiceEnabled(!isVoiceEnabled)]; the component
    renders again and hands the new flag to the hook. *)
Definition handleToggleVoice (s : Hook) : Hook :=
  setProps
    (mkProps (p_channelId (props s)) (p_nickname (props s))
       (negb (p_isEnabled (props s)))) s.

(** ** Further invariants of the reachable states *)

(** An entry of the peer map holds a live instance that was created toward
    its key. *)
Definition map_live (s : Hook) : Prop :=
  ∀ k id, peersRef s !! k = Some id →
    ∃ p, peerObjs s !! id = Some p ∧ target p = k ∧ destroyed p = false.

(** Every destroyed instance has had its 'close' handler run. *)
Definition all_closed (s : Hook) : Prop :=
  ∀ id p, peerObjs s !! id = Some p → destroyed p = true →
    closeEmitted p = true.

(** An audio element as [removeRemoteAudio] leaves it. *)
Definition detached (el : AudioEl) : Prop :=
  srcObject el = None ∧ paused el = true ∧ inDocument el = false.

(** An audio element that is still attached is in the audio map. *)
Definition audio_doc (s : Hook) : Prop :=
  ∀ a el, audios s !! a = Some el →
    detached el ∨ ∃ k, remoteAudiosRef s !! k = Some a.

(** What every handler and every microtask keeps. *)
Definition Mesh (s : Hook) : Prop := map_live s ∧ audio_doc s.

(** Two properties the hook does not keep, and which decide what
    [disconnectFromVoice] reaches: every live instance is in the peer map
    under its target, and every entry of the audio map belongs to a key of
    the peer map. *)
Definition live_mapped (s : Hook) : Prop :=
  ∀ id p, peerObjs s !! id = Some p → destroyed p = false →
    peersRef s !! target p = Some id.

Definition audio_linked (s : Hook) : Prop :=
  ∀ k, remoteAudiosRef s !! k ≠ None → peersRef s !! k ≠ None.

(** Every destroyed instance with an index below [n] has had its 'close'
    handler run. *)
Definition closed_below (n : nat) (s : Hook) : Prop :=
  ∀ id p, id < n → peerObjs s !! id = Some p → destroyed p = true →
    closeEmitted p = true.

(** The render that mounts a hook given props [p]. *)
Definition firstRender (p : Props) : Render.t :=
  Render.mk (p_channelId p) (p_nickname p) (p_isEnabled p) false false false.

Definition await_first (p : Props) (a : Await) : Prop :=
  match a with
  | AwaitCapture _ _ rinit => rinit = firstRender p
  | AwaitTrack => True
  end.

(** [initializeAudio] is never created again, so the sampling loop always
    runs the [detectVoice] of the mounting render; the level it stores is
    within [0, 1]. *)
Definition Vad (p : Props) (s : Hook) : Prop :=
  memo_initializeAudio s = firstRender p
  ∧ Forall (λ f, f.2 = firstRender p) (frames s)
  ∧ Forall (await_first p) (pending s)
  ∧ (0 <= audioLevel s)%Q ∧ (audioLevel s <= 1)%Q.

(** The label of the connect button: [isConnected ? 'DISCONNECT' :
    'JOIN VOICE'].  Its click handler is [handleToggleVoice] in both
    cases. *)
Inductive ButtonLabel := LabelDisconnect | LabelJoinVoice.

Definition connectButtonLabel (s : Hook) : ButtonLabel :=
  if isConnected s then LabelDisconnect else LabelJoinVoice.

(** alice enables voice and the capture request is refused. *)
Definition alice_denied : Hook :=
  run (mount alice_off) [SetProps alice_on; Settle 0 (CaptureOutcome Denied)].

(** alice connects and mutes. *)
Definition alice_muted : Hook := run alice_connected [CallToggleMute].

(** [s'] has the peer map, the instances, the audio map and the audio
    elements of [s]. *)
Definition same_mesh_fields (s s' : Hook) : Prop :=
  peersRef s' = peersRef s ∧ peerObjs s' = peerObjs s
  ∧ remoteAudiosRef s' = remoteAudiosRef s ∧ audios s' = audios s.
(** * Properties *)

Lemma foldl_preserved {A B} (P : A → Prop) (f : A → B → A) (l : list B) :
  (∀ a b, P a → P (f a b)) → ∀ a, P a → P (foldl f a l).
Proof.
  intros Hstep. induction l as [|b l IH]; intros a Ha; simpl; [done|].
  apply IH, Hstep, Ha.
Qed.

Lemma Reachable_mount p : Reachable p (mount p).
Proof. by exists []. Qed.

Lemma Reachable_runTasks p s tasks :
  Reachable p s → Reachable p (runTasks s tasks).
Proof.
  intros [t0 ->]. exists (t0 ++ tasks). unfold runTasks. by rewrite foldl_app.
Qed.

(** A session in which every callback has a task of its own. *)
Lemma run_runTasks s trace : run s trace = runTasks s (map (λ e, [e]) trace).
Proof. revert s. induction trace as [|e trace IH]; intros s; [done|]. apply IH. Qed.

Lemma Reachable_run p s trace : Reachable p s → Reachable p (run s trace).
Proof. intros H. rewrite run_runTasks. by apply Reachable_runTasks. Qed.

Lemma alice_connected_reachable : Reachable alice_off alice_connected.
Proof. apply Reachable_run, Reachable_mount. Qed.

(** ** The roster after a presence sync *)







(** ** Muting without a local stream *)

(** C3, as stated, fails: mounted and never connected, the hook holds no
    local stream, and [toggleMute] leaves [isMuted] at [false]. *)
Lemma C3_counterexample :
  let s := mount alice_off in
  localStreamRef s = None
  ∧ isMuted (toggleMute (currentRender s) s) ≠ negb (isMuted s).
Proof. vm_compute. split; [reflexivity | discriminate]. Qed.

(** C3 (amended). Without a local stream [toggleMute] returns normally and
    changes nothing: the muted flag keeps its value and nothing is sent. *)
Theorem C3_toggleMute_without_stream (r : Render.t) (s : Hook) :
  localStreamRef s = None → toggleMute r s = s.
Proof. intros H. unfold toggleMute. by rewrite H. Qed.

Lemma C3_toggleMute_without_stream_witness :
  toggleMute (currentRender (mount alice_off)) (mount alice_off)
  = mount alice_off.
Proof. apply C3_toggleMute_without_stream. reflexivity. Defined.

(** ** Enabling twice *)

(** C8, as stated, fails for Connecting: while the first capture request is
    open the flag [isConnected] is still [false], so a second call passes
    the guard and asks for the microphone again. *)
Lemma C8_counterexample :
  Connecting alice_connecting
  ∧ captureRequests alice_connecting = 1
  ∧ captureRequests (handle CallConnectToVoice alice_connecting) = 2
  ∧ handle CallConnectToVoice alice_connecting ≠ alice_connecting.
Proof.
  split; [by vm_compute|]. split; [reflexivity|]. split; [reflexivity|].
  intros H. apply (f_equal captureRequests) in H. vm_compute in H.
  discriminate.
Qed.

(** C8 (amended). [connectToVoice] of a render in which [isConnected] holds
    is a no-op: the state is returned as it is, so no capture is requested,
    no channel is created and no variable changes.  This is the callback
    the hook hands out whenever the session is Connected. *)
Theorem C8_connect_when_connected_is_noop (s : Hook) :
  isConnected s = true →
  (∀ r rcp rinit, Render.isConnected r = true → connectToVoice r rcp rinit s = s)
  ∧ handle CallConnectToVoice s = s.
Proof.
  intros Hc. split.
  - intros r rcp rinit Hr. unfold connectToVoice. rewrite Hr.
    by rewrite orb_true_r.
  - simpl. unfold connectToVoice, currentRender. simpl. rewrite Hc.
    by rewrite orb_true_r.
Qed.

Lemma C8_connect_when_connected_is_noop_witness :
  isConnected alice_connected = true
  ∧ handle CallConnectToVoice alice_connected = alice_connected.
Proof.
  split; [reflexivity|].
  apply (C8_connect_when_connected_is_noop alice_connected). reflexivity.
Defined.

(** ** Capture refused *)

(** C5. When [getUserMedia] is refused during [connectToVoice], the hook
    ends with the cause string set (status Error); no channel object is
    created and [channelRef], the peer map, the peer instances, the local
    stream ref and [isConnected] are what they were.  From a session at rest
    this means: no channel, no peer link, not connected. *)
Theorem C5_capture_denied (r rcp rinit : Render.t) (s : Hook) :
  Render.isEnabled r = true → Render.isConnected r = false →
  let s1 := connectToVoice r rcp rinit s in
  let s2 := settle (length (pending s)) (CaptureOutcome Denied) s1 in
  captureRequests s1 = S (captureRequests s)
  ∧ connectionError s2 = Some msg_failed
  ∧ status s2 = Error
  ∧ channels s2 = channels s
  ∧ channelRef s2 = channelRef s
  ∧ peersRef s2 = peersRef s
  ∧ peerObjs s2 = peerObjs s
  ∧ localStreamRef s2 = localStreamRef s
  ∧ isConnected s2 = isConnected s
  ∧ pending s2 = pending s
  ∧ (AtRest s → AtRest s2).
Proof.
  intros He Hc s1 s2. subst s1 s2.
  unfold connectToVoice. rewrite He, Hc. simpl.
  unfold settle. simpl.
  rewrite lookup_app_r by done. rewrite Nat.sub_diag. simpl.
  assert (Hdel : delete (length (pending s))
                   (pending s ++ [AwaitCapture r rcp rinit]) = pending s).
  { rewrite delete_middle. apply app_nil_r. }
  unfold connectToVoice_afterCapture. simpl.
  do 9 (split; [done|]). split; [exact Hdel|].
  intros (H1 & H2 & H3). by repeat split.
Qed.

Lemma C5_capture_denied_witness :
  let s := settle 0 (CaptureOutcome Denied)
             (connectToVoice (currentRender (initial alice_on))
                (memo_createPeer (initial alice_on))
                (memo_initializeAudio (initial alice_on)) (initial alice_on)) in
  status s = Error ∧ channels s = [] ∧ AtRest s.
Proof.
  pose proof (C5_capture_denied (currentRender (initial alice_on))
                (memo_createPeer (initial alice_on))
                (memo_initializeAudio (initial alice_on)) (initial alice_on)
                eq_refl eq_refl) as H.
  simpl in H. destruct H as (_ & _ & Hs & Hch & _ & _ & _ & _ & _ & _ & Hrest).
  split; [exact Hs|]. split; [exact Hch|].
  apply Hrest. by vm_compute.
Defined.

(** ** Generic facts about the stores *)

(** A loop that applies an idempotent update to the objects [g e] of a
    collection: which objects are updated does not depend on the order. *)
Lemma foldl_alter_lookup {A B} (f : A → A) (g : B → nat) (l : list B) :
  (∀ x, f (f x) = f x) →
  ∀ (h : list A) (i : nat),
    foldl (λ acc e, alter f (g e) acc) h l !! i
    = if bool_decide (i ∈ g <$> l) then f <$> h !! i else h !! i.
Proof.
  intros Hf. induction l as [|e l IH]; intros h i.
  - rewrite fmap_nil.
    rewrite bool_decide_eq_false_2; [done | apply not_elem_of_nil].
  - rewrite fmap_cons. cbn [foldl]. rewrite IH.
    destruct (decide (i = g e)) as [->|Hne].
    + rewrite list_lookup_alter_eq.
      rewrite (bool_decide_eq_true_2 (g e ∈ g e :: (g <$> l)))
        by apply list_elem_of_here.
      destruct (bool_decide (g e ∈ g <$> l)); [|done].
      destruct (h !! g e); simpl; [by rewrite Hf | done].
    + rewrite list_lookup_alter_ne by done.
      apply (f_equal (λ b : bool, if b then f <$> h !! i else h !! i)).
      apply bool_decide_ext. rewrite elem_of_cons. intuition congruence.
Qed.

(** ** Muting twice *)

Lemma isAudio_setEnabled b t ts t' :
  isAudio (alter (setEnabled b) t ts) t' = isAudio ts t'.
Proof.
  unfold isAudio. destruct (decide (t = t')) as [->|Hne].
  - rewrite list_lookup_alter_eq. by destruct (ts !! t').
  - by rewrite list_lookup_alter_ne.
Qed.

Lemma getAudioTracks_setEnabled b t st ts :
  getAudioTracks st (alter (setEnabled b) t ts) = getAudioTracks st ts.
Proof.
  unfold getAudioTracks. induction st as [|x st IH]; simpl; [done|].
  by rewrite isAudio_setEnabled, IH.
Qed.

Lemma getAudioTracks_head_lookup st ts t rest :
  getAudioTracks st ts = t :: rest → ∃ tr, ts !! t = Some tr.
Proof.
  intros H. assert (Hin : In t (getAudioTracks st ts)) by (rewrite H; by left).
  apply filter_In in Hin as [_ Ha]. unfold isAudio in Ha.
  destruct (ts !! t); [eauto | done].
Qed.

(** What one call of [toggleMute] through the current render does when an
    audio track is there. *)
Lemma toggleMute_with_track s st t rest :
  localStreamRef s = Some st → getAudioTracks st (tracks s) = t :: rest →
  let s' := toggleMute (currentRender s) s in
  isMuted s' = negb (isMuted s)
  ∧ tracks s' = alter (setEnabled (isMuted s)) t (tracks s)
  ∧ localStreamRef s' = Some st.
Proof.
  intros Hst Ht. unfold toggleMute. rewrite Hst, Ht. unfold send. simpl.
  by destruct (channelRef s).
Qed.

(** C9, as stated, fails: after alice has muted, left voice and joined
    again, a fresh track is live while [isMuted] is still [true]; two calls
    of [toggleMute] restore the flag and leave the track disabled. *)
Lemma C9_counterexample :
  let s := alice_rejoined_muted in
  let s1 := toggleMute (currentRender s) s in
  let s2 := toggleMute (currentRender s1) s1 in
  Reachable alice_off s
  ∧ localStreamRef s = Some [1]
  ∧ getAudioTracks [1] (tracks s) = [1]
  ∧ isMuted s = true
  ∧ isMuted s2 = true
  ∧ enabled <$> tracks s !! 1 = Some true
  ∧ enabled <$> tracks s2 !! 1 = Some false.
Proof.
  intros s s1 s2. split.
  - apply Reachable_run, alice_connected_reachable.
  - subst s s1 s2. vm_compute. repeat split.
Qed.

(** C9 (amended). With a local stream that has an audio track, two calls
    of [toggleMute], each through the callback of the current render, bring
    the muted flag back to its value and leave the track enabled exactly
    when the session is not muted.  So the enabled-state of the track is
    the original one whenever it agreed with the flag at the start. *)
Theorem C9_toggleMute_twice (s : Hook) (st : list nat) (t : nat)
    (rest : list nat) :
  localStreamRef s = Some st → getAudioTracks st (tracks s) = t :: rest →
  let s1 := toggleMute (currentRender s) s in
  let s2 := toggleMute (currentRender s1) s1 in
  isMuted s2 = isMuted s
  ∧ ∃ tr tr2, tracks s !! t = Some tr ∧ tracks s2 !! t = Some tr2
      ∧ enabled tr2 = negb (isMuted s)
      ∧ (enabled tr = negb (isMuted s) → enabled tr2 = enabled tr).
Proof.
  intros Hst Ht s1 s2.
  destruct (toggleMute_with_track s st t rest Hst Ht) as (Hm1 & Ht1 & Hs1).
  fold s1 in Hm1, Ht1, Hs1.
  assert (Ht' : getAudioTracks st (tracks s1) = t :: rest)
    by (rewrite Ht1; by rewrite getAudioTracks_setEnabled).
  destruct (toggleMute_with_track s1 st t rest Hs1 Ht') as (Hm2 & Ht2 & _).
  fold s2 in Hm2, Ht2.
  split; [rewrite Hm2, Hm1; apply negb_involutive|].
  destruct (getAudioTracks_head_lookup _ _ _ _ Ht) as [tr Htr].
  exists tr, (setEnabled (isMuted s1) (setEnabled (isMuted s) tr)).
  split; [done|]. split.
  - rewrite Ht2, Ht1. rewrite !list_lookup_alter_eq. by rewrite Htr.
  - simpl. rewrite Hm1. split; [done | by intros ->].
Qed.

Lemma C9_toggleMute_twice_witness :
  let s := alice_connected in
  let s1 := toggleMute (currentRender s) s in
  let s2 := toggleMute (currentRender s1) s1 in
  isMuted s2 = isMuted s
  ∧ ∃ tr tr2, tracks s !! 0 = Some tr ∧ tracks s2 !! 0 = Some tr2
      ∧ enabled tr2 = negb (isMuted s)
      ∧ (enabled tr = negb (isMuted s) → enabled tr2 = enabled tr).
Proof.
  apply (C9_toggleMute_twice alice_connected [0] 0 []); reflexivity.
Defined.

(** Two calls of the callback of one and the same render do not undo each
    other: both read the [isMuted] of that render. *)
Lemma toggleMute_same_render_twice r s st t rest :
  localStreamRef s = Some st → getAudioTracks st (tracks s) = t :: rest →
  isMuted (toggleMute r (toggleMute r s)) = negb (Render.isMuted r).
Proof.
  intros Hst Ht.
  assert (H1 : ∀ x, localStreamRef x = Some st →
                    getAudioTracks st (tracks x) = t :: rest →
                    isMuted (toggleMute r x) = negb (Render.isMuted r)
                    ∧ localStreamRef (toggleMute r x) = Some st
                    ∧ tracks (toggleMute r x)
                      = alter (setEnabled (Render.isMuted r)) t (tracks x)).
  { intros x Hx Hx'. unfold toggleMute, send. rewrite Hx, Hx'. simpl.
    by destruct (channelRef x). }
  destruct (H1 s Hst Ht) as (_ & Hs & Htr).
  apply (H1 (toggleMute r s) Hs).
  by rewrite Htr, getAudioTracks_setEnabled.
Qed.

(** ** Removing a remote audio output *)

Lemma removeRemoteAudio_map userId s :
  remoteAudiosRef (removeRemoteAudio userId s)
  = delete userId (remoteAudiosRef s).
Proof.
  unfold removeRemoteAudio.
  destruct (remoteAudiosRef s !! userId) eqn:E; simpl; [done|].
  symmetry. by apply delete_id.
Qed.

Lemma removeRemoteAudio_audios userId s :
  audios (removeRemoteAudio userId s)
  = match remoteAudiosRef s !! userId with
    | Some a => alter detachAudio a (audios s)
    | None => audios s
    end.
Proof. unfold removeRemoteAudio. by destruct (remoteAudiosRef s !! userId). Qed.

(** ** A failing peer connection *)



(** What the 'error' handler does on its own: it only drops the map entry.
    The audio element is dealt with by the 'close' handler that simple-peer
    runs right after it. *)
Lemma onPeerError_only_forgets (p : PeerObj) (s : Hook) :
  peersRef (onPeerError p s) = delete (target p) (peersRef s)
  ∧ remoteAudiosRef (onPeerError p s) = remoteAudiosRef s
  ∧ audios (onPeerError p s) = audios s
  ∧ peerObjs (onPeerError p s) = peerObjs s.
Proof. done. Qed.

(** ** Deafening *)

Lemma setVolume_idem v a : setVolume v (setVolume v a) = setVolume v a.
Proof. done. Qed.

(** The half of C7 that holds: [toggleDeafen] flips the flag and sets the
    volume of every output in the audio map to 0 (deafened) or 1. *)
Lemma toggleDeafen_sets_volumes (s : Hook) :
  let s' := toggleDeafen (currentRender s) s in
  isDeafened s' = negb (isDeafened s)
  ∧ remoteAudiosRef s' = remoteAudiosRef s
  ∧ ∀ k a el, remoteAudiosRef s !! k = Some a → audios s !! a = Some el →
      ∃ el', audios s' !! a = Some el'
             ∧ volume el' = (if isDeafened s' then 0 else 1)%Q.
Proof.
  simpl. split; [done|]. split; [done|]. intros k a el Hk Hel.
  unfold toggleDeafen. simpl.
  rewrite (foldl_alter_lookup _ snd) by apply setVolume_idem.
  rewrite bool_decide_eq_true_2.
  - rewrite Hel. simpl. eauto.
  - apply list_elem_of_fmap. exists (k, a). split; [done|].
    by apply elem_of_map_to_list.
Qed.

(** [useCallback] keeps [createPeer] across the render that follows a
    deafen: its dependency list holds [nickname] only. *)
Lemma toggleDeafen_keeps_createPeer (s : Hook) :
  memo_createPeer (handle CallToggleDeafen s) = memo_createPeer s.
Proof. reflexivity. Qed.

Lemma useCallback_createPeer_same_nickname (old now : Render.t) :
  Render.nickname old = Render.nickname now →
  useCallback_createPeer old now = old.
Proof.
  intros H. unfold useCallback_createPeer. by rewrite bool_decide_eq_true_2.
Qed.

(** The volume a newly attached output gets is decided by the render that
    created [createPeer], not by the current one. *)
Lemma onPeerStream_volume (p : PeerObj) (remoteStream : nat) (s : Hook) :
  let s' := onPeerStream p remoteStream s in
  ∃ a el, remoteAudiosRef s' !! target p = Some a
          ∧ audios s' !! a = Some el
          ∧ volume el = (if Render.isDeafened (creator p) then 0 else 1)%Q.
Proof.
  simpl. unfold onPeerStream, playRemoteAudio. simpl.
  eexists _, _. split; [apply lookup_insert_eq|].
  split; [by apply list_lookup_middle | done].
Qed.

(** C7, the half that fails: alice deafens, then bob joins, the connection
    toward him is made and his stream attached.  [isDeafened] is [true], the new output plays
    at volume 1.  [createPeer] is memoised on [[nickname]] alone, so the
    [playRemoteAudio] its 'stream' handler calls is the one of the render
    that mounted the hook, where [isDeafened] was [false]. *)
Theorem C7_attach_ignores_deafen :
  let s := alice_deafened_then_bob in
  Reachable alice_off s
  ∧ isDeafened s = true
  ∧ remoteAudiosRef s !! "bob" = Some 0
  ∧ volume <$> audios s !! 0 = Some 1%Q
  ∧ Render.isDeafened (memo_createPeer s) = false.
Proof.
  intros s. split.
  - apply Reachable_run, alice_connected_reachable.
  - subst s. vm_compute. repeat split.
Qed.

(** ** Disconnecting *)

Lemma markDestroyed_idem p : markDestroyed (markDestroyed p) = markDestroyed p.
Proof. done. Qed.


Lemma detachAudio_idem a : detachAudio (detachAudio a) = detachAudio a.
Proof. done. Qed.

Ltac close_step :=
  intros; unfold removeRemoteAudio, peerDestroy; simpl; by case_match.

Lemma closePeers_cons k id l s :
  closePeers ((k, id) :: l) s
  = closePeers l (removeRemoteAudio k (peerDestroy id s)).
Proof. done. Qed.

Lemma closePeers_peerObjs l s :
  peerObjs (closePeers l s)
  = foldl (λ h e, alter markDestroyed e.2 h) (peerObjs s) l.
Proof.
  revert s. induction l as [|[k id] l IH]; intros s; [done|].
  rewrite closePeers_cons, IH. simpl. f_equal. close_step.
Qed.

Lemma closePeers_remoteAudios l s k :
  remoteAudiosRef (closePeers l s) !! k
  = if bool_decide (k ∈ l.*1) then None else remoteAudiosRef s !! k.
Proof.
  revert s. induction l as [|[k' id] l IH]; intros s.
  - rewrite fmap_nil. rewrite bool_decide_eq_false_2; [done|].
    apply not_elem_of_nil.
  - rewrite closePeers_cons, IH, fmap_cons. simpl.
    rewrite removeRemoteAudio_map. simpl.
    destruct (decide (k = k')) as [->|Hne].
    + rewrite lookup_delete_eq.
      rewrite (bool_decide_eq_true_2 (k' ∈ k' :: l.*1))
        by apply list_elem_of_here.
      by destruct (bool_decide (k' ∈ l.*1)).
    + rewrite lookup_delete_ne by done.
      apply (f_equal (λ b : bool, if b then None else remoteAudiosRef s !! k)).
      apply bool_decide_ext. rewrite elem_of_cons. intuition congruence.
Qed.

Lemma closeStep_audios k id s :
  audios (removeRemoteAudio k (peerDestroy id s))
  = match remoteAudiosRef s !! k with
    | Some a => alter detachAudio a (audios s)
    | None => audios s
    end.
Proof. by rewrite removeRemoteAudio_audios. Qed.

(** An audio element is left alone or detached, never anything else. *)
Lemma closePeers_audios_any l s a el :
  audios s !! a = Some el →
  ∃ el', audios (closePeers l s) !! a = Some el'
         ∧ (el' = el ∨ el' = detachAudio el).
Proof.
  revert s el. induction l as [|[k id] l IH]; intros s el Hel.
  - exists el. by split; [|left].
  - rewrite closePeers_cons.
    assert (∃ el1, audios (removeRemoteAudio k (peerDestroy id s)) !! a
                   = Some el1 ∧ (el1 = el ∨ el1 = detachAudio el))
      as (el1 & H1 & Hor).
    { rewrite closeStep_audios.
      destruct (remoteAudiosRef s !! k) as [a'|]; [|eauto].
      destruct (decide (a' = a)) as [->|Hne].
      - rewrite list_lookup_alter_eq, Hel. simpl. eauto.
      - rewrite list_lookup_alter_ne by done. eauto. }
    destruct (IH _ _ H1) as (el' & H' & Hor').
    exists el'. split; [done|].
    destruct Hor as [->| ->]; [done|].
    rewrite detachAudio_idem in Hor'. right. by destruct Hor'.
Qed.

(** The audio element of every closed peer is detached. *)
Lemma closePeers_audios l s k a el :
  k ∈ l.*1 → remoteAudiosRef s !! k = Some a → audios s !! a = Some el →
  audios (closePeers l s) !! a = Some (detachAudio el).
Proof.
  revert s el. induction l as [|[k' id] l IH]; intros s el Hin Hk Hel.
  - by apply elem_of_nil in Hin.
  - rewrite closePeers_cons.
    destruct (decide (k' = k)) as [->|Hne].
    + assert (audios (removeRemoteAudio k (peerDestroy id s)) !! a
              = Some (detachAudio el)) as H1.
      { rewrite closeStep_audios, Hk, list_lookup_alter_eq. by rewrite Hel. }
      destruct (closePeers_audios_any l _ _ _ H1) as (el' & H' & Hor).
      rewrite H'. rewrite detachAudio_idem in Hor. by destruct Hor as [->| ->].
    + rewrite fmap_cons in Hin. apply elem_of_cons in Hin as [Heq|Hin];
        [simpl in Heq; congruence|].
      assert (remoteAudiosRef (removeRemoteAudio k' (peerDestroy id s)) !! k
              = Some a) as Hk1.
      { rewrite removeRemoteAudio_map. simpl. by rewrite lookup_delete_ne. }
      assert (∃ el1, audios (removeRemoteAudio k' (peerDestroy id s)) !! a
                     = Some el1 ∧ detachAudio el1 = detachAudio el)
        as (el1 & H1 & He).
      { rewrite closeStep_audios.
        destruct (remoteAudiosRef s !! k') as [a'|]; [|eauto].
        destruct (decide (a' = a)) as [->|Hna].
        - rewrite list_lookup_alter_eq, Hel. simpl. eauto.
        - rewrite list_lookup_alter_ne by done. eauto. }
      rewrite (IH _ _ Hin Hk1 H1). by rewrite He.
Qed.

(** Each statement of [disconnectFromVoice] written as plain assignments:
    after rewriting with these, every field of the result can be read
    off. *)
Lemma stopSampling_nf s :
  stopSampling s
  = set_frames
      (match animationFrameRef s with
       | Some (S _ as id) => filter (λ f, f.1 ≠ id) (frames s)
       | _ => frames s
       end) s.
Proof. destruct s. unfold stopSampling. simpl. by repeat case_match. Qed.

Lemma releaseLocalStream_nf s :
  releaseLocalStream s
  = set_localStreamRef None
      (set_tracks
         (match localStreamRef s with
          | Some st => stopTracks st (tracks s)
          | None => tracks s
          end) s).
Proof.
  destruct s. unfold releaseLocalStream. simpl.
  repeat case_match; simpl in *; by subst.
Qed.

Lemma closeAudioContext_nf s :
  closeAudioContext s
  = set_audioContextRef
      (match audioContextRef s with
       | Some c => if isClosed (audioContexts s) c then Some c else None
       | None => None
       end)
      (set_audioContexts
         (match audioContextRef s with
          | Some c =>
              if isClosed (audioContexts s) c then audioContexts s
              else <[c := true]> (audioContexts s)
          | None => audioContexts s
          end) s).
Proof.
  destruct s. unfold closeAudioContext. simpl.
  repeat case_match; simpl in *; by subst.
Qed.

Lemma leaveChannel_nf s :
  leaveChannel s
  = set_channelRef None
      (set_channels
         (match channelRef s with
          | Some c => alter unsubscribe c (channels s)
          | None => channels s
          end) s).
Proof.
  destruct s. unfold leaveChannel. simpl.
  repeat case_match; simpl in *; by subst.
Qed.

Lemma closePeers_nf l s :
  closePeers l s
  = set_remoteAudiosRef (remoteAudiosRef (closePeers l s))
      (set_audios (audios (closePeers l s))
         (set_peerObjs (peerObjs (closePeers l s)) s)).
Proof.
  unfold closePeers at 1.
  apply (foldl_preserved
           (λ acc, acc = set_remoteAudiosRef (remoteAudiosRef acc)
                           (set_audios (audios acc)
                              (set_peerObjs (peerObjs acc) s)))).
  - intros a [k id] Ha. destruct s, a. simpl in *.
    injection Ha as -> -> -> -> -> -> -> -> -> -> -> -> -> -> -> -> -> -> -> ->
      -> -> ->.
    unfold removeRemoteAudio, peerDestroy. simpl. by case_match.
  - by destruct s.
Qed.

Ltac disconnect_nf :=
  unfold disconnectFromVoice; cbv zeta;
  try rewrite leaveChannel_nf; simpl;
  try rewrite closePeers_nf; simpl;
  try rewrite closeAudioContext_nf; simpl;
  try rewrite releaseLocalStream_nf; simpl;
  try rewrite stopSampling_nf; simpl.

Lemma disconnectFromVoice_peerObjs s id :
  peerObjs (disconnectFromVoice s) !! id
  = if bool_decide (id ∈ (map_to_list (peersRef s)).*2)
    then markDestroyed <$> peerObjs s !! id
    else peerObjs s !! id.
Proof.
  disconnect_nf. rewrite closePeers_peerObjs. simpl.
  apply (foldl_alter_lookup _ snd), markDestroyed_idem.
Qed.

(** When a statement of [disconnectFromVoice] finds nothing to do. *)
Lemma stopSampling_fixed s :
  (∀ n, animationFrameRef s = Some (S n) →
        filter (λ f, f.1 ≠ S n) (frames s) = frames s) →
  stopSampling s = s.
Proof.
  intros H. rewrite stopSampling_nf.
  destruct s. simpl in *. destruct animationFrameRef0 as [[|n]|]; try done.
  by rewrite (H n eq_refl).
Qed.

Lemma releaseLocalStream_fixed s :
  localStreamRef s = None → releaseLocalStream s = s.
Proof. intros H. unfold releaseLocalStream. by rewrite H. Qed.

Lemma closeAudioContext_fixed s :
  (∀ c, audioContextRef s = Some c → isClosed (audioContexts s) c = true) →
  closeAudioContext s = s.
Proof.
  intros H. unfold closeAudioContext.
  destruct (audioContextRef s) as [c|]; [|done]. by rewrite (H c eq_refl).
Qed.

Lemma leaveChannel_fixed s : channelRef s = None → leaveChannel s = s.
Proof. intros H. unfold leaveChannel. by rewrite H. Qed.

Lemma reset_fixed s :
  peersRef s = ∅ → isConnected s = false → voiceUsers s = [] →
  audioLevel s = 0%Q → connectionError s = None →
  set_connectionError None
    (set_audioLevel 0 (set_voiceUsers [] (set_isConnected false
       (set_peersRef ∅ s)))) = s.
Proof. destruct s. simpl. by intros -> -> -> -> ->. Qed.

Lemma disconnectFromVoice_fixed s :
  (∀ n, animationFrameRef s = Some (S n) →
        filter (λ f, f.1 ≠ S n) (frames s) = frames s) →
  localStreamRef s = None →
  (∀ c, audioContextRef s = Some c → isClosed (audioContexts s) c = true) →
  peersRef s = ∅ → channelRef s = None →
  isConnected s = false → voiceUsers s = [] →
  audioLevel s = 0%Q → connectionError s = None →
  disconnectFromVoice s = s.
Proof.
  intros H1 H2 H3 H4 H5 H6 H7 H8 H9. unfold disconnectFromVoice. cbv zeta.
  rewrite (stopSampling_fixed s H1), (releaseLocalStream_fixed s H2),
    (closeAudioContext_fixed s H3), H4, map_to_list_empty.
  change (closePeers [] s) with s.
  rewrite leaveChannel_fixed by done. by apply reset_fixed.
Qed.

Lemma disconnectFromVoice_idem s :
  disconnectFromVoice (disconnectFromVoice s) = disconnectFromVoice s.
Proof.
  apply disconnectFromVoice_fixed.
  - intros n. disconnect_nf. intros ->. apply list_filter_filter_l. tauto.
  - by disconnect_nf.
  - intros c. disconnect_nf.
    destruct (audioContextRef s) as [c'|]; [|done].
    destruct (isClosed (audioContexts s) c') eqn:E; [|done].
    by intros [= <-].
  - by disconnect_nf.
  - by disconnect_nf.
  - by disconnect_nf.
  - by disconnect_nf.
  - by disconnect_nf.
  - by disconnect_nf.
Qed.


Lemma entry_of_key (m : gmap string nat) k :
  k ∈ (map_to_list m).*1 → ∃ id, m !! k = Some id.
Proof.
  intros H. apply list_elem_of_fmap in H as ([k' id] & -> & H).
  exists id. by apply elem_of_map_to_list.
Qed.

Lemma key_of_entry (m : gmap string nat) id :
  id ∈ (map_to_list m).*2 → ∃ k, m !! k = Some id.
Proof.
  intros H. apply list_elem_of_fmap in H as ([k id'] & -> & H).
  exists k. by apply elem_of_map_to_list.
Qed.




(** [disconnectFromVoice] has no hold on a [connectToVoice] that is
    suspended: the continuation stays, and runs when the platform answers. *)
Lemma disconnectFromVoice_keeps_pending s :
  pending (disconnectFromVoice s) = pending s.
Proof. by disconnect_nf. Qed.

Example late_capture_after_disable :
  p_isEnabled (props alice_late_capture) = false
  ∧ isConnected alice_late_capture = true
  ∧ localStreamRef alice_late_capture = Some [0]
  ∧ channelRef alice_late_capture = Some 0.
Proof. vm_compute. repeat split. Qed.

(** ** Reachable states *)

Lemma str_lt_asym a b : str_lt a b = true → str_lt b a = false.
Proof.
  unfold str_lt, String.ltb. rewrite (String.compare_antisym a b).
  by destruct (String.compare b a).
Qed.

Lemma str_lt_irrefl a : str_lt a a = false.
Proof.
  destruct (str_lt a a) eqn:E; [|done].
  pose proof (str_lt_asym _ _ E). congruence.
Qed.

(** The invariant only looks at six fields. *)
Lemma Inv_transfer s s' :
  Inv s →
  memo_createPeer s' = memo_createPeer s → props s' = props s →
  pending s' = pending s → channels s' = channels s →
  peerObjs s' = peerObjs s → analyserRef s' = analyserRef s → Inv s'.
Proof. unfold Inv. intros H -> -> -> -> -> ->. exact H. Qed.

Ltac same_core H := apply (Inv_transfer _ _ H); try reflexivity.

Lemma Inv_send m s : Inv s → Inv (send m s).
Proof. intros H. unfold send. case_match; [|done]. same_core H. Qed.

Lemma Inv_removeRemoteAudio k s : Inv s → Inv (removeRemoteAudio k s).
Proof. intros H. unfold removeRemoteAudio. case_match; [|done]. same_core H. Qed.

Lemma Inv_playRemoteAudio r st k s : Inv s → Inv (playRemoteAudio r st k s).
Proof.
  intros H. apply (Inv_removeRemoteAudio k) in H.
  unfold playRemoteAudio. same_core H.
Qed.

Lemma Inv_requestAnimationFrame r s : Inv s → Inv (requestAnimationFrame r s).
Proof. intros H. same_core H. Qed.

Lemma Inv_cancelAnimationFrame id s : Inv s → Inv (cancelAnimationFrame id s).
Proof. intros H. same_core H. Qed.

Lemma Inv_set_peerObjs l s :
  Inv s → Forall peer_ok l → Inv (set_peerObjs l s).
Proof. unfold Inv. simpl. tauto. Qed.

Lemma Inv_alter_peer f id s :
  (∀ p, peer_ok p → peer_ok (f p)) → Inv s →
  Inv (set_peerObjs (alter f id (peerObjs s)) s).
Proof.
  intros Hf H. apply Inv_set_peerObjs; [done|].
  apply Forall_alter; [apply H | auto].
Qed.

Lemma peer_ok_markDestroyed p : peer_ok p → peer_ok (markDestroyed p).
Proof. done. Qed.

Lemma peer_ok_markClosed p : peer_ok p → peer_ok (markClosed p).
Proof. done. Qed.

Lemma peer_ok_applySignal sig p : peer_ok p → peer_ok (applySignal sig p).
Proof. unfold applySignal. by destruct (destroyed p). Qed.

Lemma Inv_peerDestroy id s : Inv s → Inv (peerDestroy id s).
Proof. apply Inv_alter_peer, peer_ok_markDestroyed. Qed.

Lemma Inv_peerSignal id sig s : Inv s → Inv (peerSignal id sig s).
Proof. apply Inv_alter_peer, peer_ok_applySignal. Qed.

Lemma Inv_createPeer r k init s :
  (init = true → str_lt (Render.nickname r) k = true) →
  Inv s → Inv (createPeer r k init s).
Proof.
  intros Hlt H. unfold createPeer.
  assert (H' : Inv (set_peerObjs
                      (peerObjs s ++ [mkPeer k init (localStreamRef s) false
                                        false [] r]) s)).
  { apply Inv_set_peerObjs; [done|]. apply Forall_app. split; [apply H|].
    by apply Forall_singleton. }
  same_core H'.
Qed.

Lemma Inv_detectVoice r input s : Inv s → Inv (detectVoice r input s).
Proof.
  intros H. unfold detectVoice.
  destruct (analyserRef s); [|done].
  destruct (getByteFrequencyData _ _); [done|].
  apply Inv_requestAnimationFrame.
  destruct (num_gt _ _); [apply Inv_send|]; same_core H.
Qed.

Lemma Inv_initiateIfSmaller r rcp key s :
  Render.nickname rcp = Render.nickname r →
  Inv s → Inv (initiateIfSmaller r rcp key s).
Proof.
  intros Hn H. unfold initiateIfSmaller. repeat case_match; try done.
  apply Inv_createPeer; [|done]. intros _. by rewrite Hn.
Qed.

Lemma Inv_onPresenceSync r rcp roster s :
  Render.nickname rcp = Render.nickname r →
  Inv s → Inv (onPresenceSync r rcp roster s).
Proof.
  intros Hn H. unfold onPresenceSync. case_match; [|done].
  apply (foldl_preserved Inv).
  - intros a u Ha. by apply Inv_initiateIfSmaller.
  - same_core H.
Qed.

Lemma Inv_onPresenceLeave key s : Inv s → Inv (onPresenceLeave key s).
Proof.
  intros H. unfold onPresenceLeave.
  match goal with |- Inv (set_voiceUsers _ ?x) => assert (Hx : Inv x) end.
  { apply Inv_removeRemoteAudio.
    destruct (peersRef s !! key) as [peer|]; [|done].
    apply (Inv_peerDestroy peer) in H. same_core H. }
  same_core Hx.
Qed.

Lemma Inv_onVoiceActivity r payload s : Inv s → Inv (onVoiceActivity r payload s).
Proof. intros H. unfold onVoiceActivity. case_match; [|done]. same_core H. Qed.

Lemma Inv_handleWebRTCSignal rcp payload s :
  Inv s → Inv (handleWebRTCSignal rcp payload s).
Proof.
  intros H. unfold handleWebRTCSignal. case_match.
  - by apply Inv_peerSignal.
  - apply Inv_peerSignal, Inv_createPeer; done.
Qed.

Lemma Inv_onWebRTCSignal r rcp payload s :
  Inv s → Inv (onWebRTCSignal r rcp payload s).
Proof.
  intros H. unfold onWebRTCSignal. case_match; [|done].
  by apply Inv_handleWebRTCSignal.
Qed.

Lemma Inv_set_pending l s :
  Inv s → Forall await_ok l → Inv (set_pending l s).
Proof. unfold Inv. simpl. tauto. Qed.

Lemma Inv_connectToVoice r rcp rinit s :
  Render.nickname rcp = Render.nickname r →
  Inv s → Inv (connectToVoice r rcp rinit s).
Proof.
  intros Hn H. unfold connectToVoice. case_match; [done|].
  apply Inv_set_pending.
  - same_core H.
  - simpl. apply Forall_app. split; [apply H|]. by apply Forall_singleton.
Qed.

Lemma Inv_connectFailed s : Inv s → Inv (connectFailed s).
Proof. intros H. same_core H. Qed.

Lemma Inv_initializeAudio_settled rinit res s :
  Inv s → Inv (initializeAudio_settled rinit res s).1.
Proof.
  intros H. destruct res as [firstFrame|]; simpl; [|same_core H].
  unfold startVoiceActivityDetection. simpl. apply Inv_detectVoice.
  destruct H as (H1 & H2 & H3 & H4 & H5).
  repeat split; try done. simpl. by intros a [= <-].
Qed.

Lemma Inv_afterCapture r rcp rinit res s :
  Render.nickname rcp = Render.nickname r →
  Inv s → Inv (connectToVoice_afterCapture r rcp rinit res s).
Proof.
  intros Hn H. unfold connectToVoice_afterCapture.
  pose proof (Inv_initializeAudio_settled rinit res s H) as H1.
  destruct (initializeAudio_settled rinit res s) as [s1 [|]]; simpl in H1;
    [|by apply Inv_connectFailed].
  destruct H1 as (H1 & H2 & H3 & H4 & H5).
  repeat split; simpl; try done.
  - apply Forall_app. split; [done|]. by apply Forall_singleton.
  - apply Forall_app. split; [done|]. by apply Forall_singleton.
Qed.

Lemma Inv_afterTrack ok s : Inv s → Inv (connectToVoice_afterTrack ok s).
Proof. intros H. unfold connectToVoice_afterTrack. destruct ok; same_core H. Qed.

Lemma Inv_settle i o s : Inv s → Inv (settle i o s).
Proof.
  intros H. unfold settle.
  destruct (pending s !! i) as [[r rcp rinit|]|] eqn:E; destruct o; try done.
  - apply Inv_afterCapture.
    + destruct H as (_ & H2 & _).
      apply (Forall_lookup_1 _ _ _ _ H2 E).
    + apply Inv_set_pending; [done|]. apply Forall_delete, H.
  - apply Inv_afterTrack, Inv_set_pending; [done|]. apply Forall_delete, H.
Qed.

Lemma Forall_foldl_alter {A B} (P : A → Prop) (f : A → A) (g : B → nat)
    (l : list B) (h : list A) :
  (∀ x, P x → P (f x)) → Forall P h →
  Forall P (foldl (λ acc e, alter f (g e) acc) h l).
Proof.
  intros Hf. apply (foldl_preserved (Forall P)).
  intros a b Ha. apply Forall_alter; auto.
Qed.

Lemma Inv_disconnectFromVoice s : Inv s → Inv (disconnectFromVoice s).
Proof.
  intros (H1 & H2 & H3 & H4 & H5). unfold Inv. disconnect_nf.
  split; [done|]. split; [done|]. split; [|split; [|done]].
  - case_match; [|done]. apply Forall_alter; [done|]. by intros.
  - rewrite closePeers_peerObjs. simpl.
    by apply Forall_foldl_alter.
Qed.

Lemma Inv_toggleMute r s : Inv s → Inv (toggleMute r s).
Proof.
  intros H. unfold toggleMute. repeat case_match; try done.
  apply Inv_send. same_core H.
Qed.

Lemma Inv_toggleDeafen r s : Inv s → Inv (toggleDeafen r s).
Proof. intros H. unfold toggleDeafen. same_core H. Qed.

Lemma Inv_connectionEffect r rcp rinit s :
  Render.nickname rcp = Render.nickname r →
  Inv s → Inv (connectionEffect r rcp rinit s).
Proof.
  intros Hn H. unfold connectionEffect. case_match.
  - by apply Inv_connectToVoice.
  - by apply Inv_disconnectFromVoice.
Qed.

Lemma Inv_setProps p s : Inv s → Inv (setProps p s).
Proof.
  intros (H1 & H2 & H3 & H4 & H5). unfold setProps.
  set (s2 := set_memo_createPeer _ _).
  assert (Hn : Render.nickname (memo_createPeer s2) = p_nickname p).
  { simpl. unfold useCallback_createPeer. by case_bool_decide. }
  assert (H' : Inv s2) by (by repeat split).
  case_match; [done|].
  apply Inv_connectionEffect; [done|].
  by apply Inv_disconnectFromVoice.
Qed.

Lemma Inv_mount p : Inv (mount p).
Proof.
  unfold mount. apply Inv_connectionEffect; [done|].
  by repeat split.
Qed.

Lemma Inv_onPeerClose p s : Inv s → Inv (onPeerClose p s).
Proof.
  intros H. unfold onPeerClose. apply Inv_removeRemoteAudio. same_core H.
Qed.

Lemma Inv_emitClose id s : Inv s → Inv (emitClose id s).
Proof.
  intros H. unfold emitClose. repeat case_match; try done.
  apply Inv_onPeerClose, Inv_alter_peer; [apply peer_ok_markClosed | done].
Qed.

Lemma Inv_microtasks s : Inv s → Inv (microtasks s).
Proof.
  intros H. unfold microtasks. apply (foldl_preserved Inv); [|done].
  intros a id Ha. by apply Inv_emitClose.
Qed.

Lemma Inv_onChannel c h s :
  (∀ ch, channel_ok ch → Inv s → Inv (h ch s)) → Inv s → Inv (onChannel c h s).
Proof.
  intros Hh H. unfold onChannel.
  destruct (channels s !! c) as [ch|] eqn:E; [|done].
  case_match; [|done]. apply Hh; [|done].
  destruct H as (_ & _ & H3 & _). apply (Forall_lookup_1 _ _ _ _ H3 E).
Qed.

Lemma Inv_onPeer id h s :
  (∀ p, Inv s → Inv (h p s)) → Inv s → Inv (onPeer id h s).
Proof.
  intros Hh H. unfold onPeer. repeat case_match; try done. by apply Hh.
Qed.

Lemma Inv_animationFrame id input s : Inv s → Inv (animationFrame id input s).
Proof.
  intros H. unfold animationFrame. repeat case_match; try done.
  by apply Inv_detectVoice, Inv_cancelAnimationFrame.
Qed.

Lemma Inv_handle e s : Inv s → Inv (handle e s).
Proof.
  intros H. destruct e; simpl.
  - by apply Inv_setProps.
  - apply Inv_connectToVoice; [apply H | done].
  - by apply Inv_disconnectFromVoice.
  - by apply Inv_toggleMute.
  - by apply Inv_toggleDeafen.
  - by apply Inv_settle.
  - apply Inv_onChannel; [|done]. intros ch Hch _.
    by apply Inv_onPresenceSync.
  - apply Inv_onChannel; [|done]. intros ch Hch _.
    by apply Inv_initiateIfSmaller.
  - apply Inv_onChannel; [|done]. intros ch Hch _.
    by apply Inv_onPresenceLeave.
  - apply Inv_onChannel; [|done]. intros ch Hch _.
    by apply Inv_onVoiceActivity.
  - apply Inv_onChannel; [|done]. intros ch Hch _.
    by apply Inv_onWebRTCSignal.
  - apply Inv_onPeer; [|done]. intros p _. by apply Inv_send.
  - apply Inv_onPeer; [|done]. intros p _. by apply Inv_playRemoteAudio.
  - apply Inv_onPeer; [|done]. intros p _.
    apply Inv_onPeerClose.
    assert (H' : Inv (set_peerObjs (alter markClosed id (peerObjs s)) s))
      by (apply Inv_alter_peer; [apply peer_ok_markClosed | done]).
    unfold onPeerError. same_core H'.
  - apply Inv_onPeer; [|done]. intros p _.
    apply Inv_onPeerClose, Inv_alter_peer; [apply peer_ok_markClosed | done].
  - by apply Inv_animationFrame.
Qed.

Lemma Inv_run s trace : Inv s → Inv (run s trace).
Proof.
  unfold run. apply (foldl_preserved Inv).
  intros a e Ha. by apply Inv_microtasks, Inv_handle.
Qed.

Lemma Inv_task s es : Inv s → Inv (task s es).
Proof.
  intros H. unfold task. apply Inv_microtasks.
  apply (foldl_preserved Inv); [|done]. intros a e Ha. by apply Inv_handle.
Qed.

Lemma Reachable_Inv p s : Reachable p s → Inv s.
Proof.
  intros [tasks ->]. unfold runTasks. apply (foldl_preserved Inv).
  - intros a es Ha. by apply Inv_task.
  - apply Inv_mount.
Qed.

(** ** Initiator election *)

Lemma createPeer_Link r key init s :
  Link (createPeer r key init s) (Render.nickname r) key init.
Proof.
  exists (length (peerObjs s)), (mkPeer key init (localStreamRef s) false false [] r).
  unfold createPeer. simpl. split; [apply lookup_insert_eq|].
  split; [by apply list_lookup_middle | done].
Qed.

Lemma createPeer_Link_other r key' init' s who key init :
  key' ≠ key → Link s who key init →
  Link (createPeer r key' init' s) who key init.
Proof.
  intros Hne (id & p & H1 & H2 & H3). exists id, p. unfold createPeer. simpl.
  split; [by rewrite lookup_insert_ne|]. split; [|done].
  apply lookup_app_l_Some, H2.
Qed.

Lemma initiateIfSmaller_Link r rcp key' s who key init :
  Link s who key init → Link (initiateIfSmaller r rcp key' s) who key init.
Proof.
  intros H. unfold initiateIfSmaller.
  destruct (decide (key' = key)) as [->|Hne].
  - destruct H as (id & p & H1 & H2). unfold has at 1. rewrite H1.
    rewrite andb_false_r. exists id, p. by split.
  - repeat case_match; try done. by apply createPeer_Link_other.
Qed.

Lemma initiateIfSmaller_initiates r rcp key s :
  str_lt (Render.nickname r) key = true → peersRef s !! key = None →
  Link (initiateIfSmaller r rcp key s) (Render.nickname rcp) key true.
Proof.
  intros Hlt Hnone. unfold initiateIfSmaller, has. rewrite Hnone, Hlt.
  rewrite bool_decide_eq_true_2.
  - apply createPeer_Link.
  - intros ->. by rewrite str_lt_irrefl in Hlt.
Qed.

Lemma initiateIfSmaller_lookup_other r rcp key' s key :
  key' ≠ key →
  peersRef (initiateIfSmaller r rcp key' s) !! key = peersRef s !! key.
Proof.
  intros Hne. unfold initiateIfSmaller, createPeer.
  repeat case_match; try done. simpl. by rewrite lookup_insert_ne.
Qed.

Lemma initiateIfSmaller_declines r rcp key s :
  str_lt (Render.nickname r) key = false →
  initiateIfSmaller r rcp key s = s.
Proof. intros Hlt. unfold initiateIfSmaller. rewrite Hlt. by case_match. Qed.

Lemma sync_loop_Link r rcp who key init users s :
  Link s who key init →
  Link (foldl (λ acc user, initiateIfSmaller r rcp (VoiceUser.nickname user) acc)
          s users) who key init.
Proof.
  apply (foldl_preserved (λ acc, Link acc who key init)).
  intros a u Ha. by apply initiateIfSmaller_Link.
Qed.

Lemma sync_loop_initiates r rcp key roster :
  str_lt (Render.nickname r) key = true → key ∈ roster →
  ∀ s, peersRef s !! key = None →
    Link (foldl (λ acc user, initiateIfSmaller r rcp (VoiceUser.nickname user) acc)
            s (map defaultUser roster)) (Render.nickname rcp) key true.
Proof.
  intros Hlt. induction roster as [|k roster IH]; intros Hin s Hnone.
  - by apply elem_of_nil in Hin.
  - simpl. destruct (decide (k = key)) as [->|Hne].
    + apply sync_loop_Link. by apply initiateIfSmaller_initiates.
    + apply elem_of_cons in Hin as [->|Hin]; [done|].
      apply IH; [done|]. by rewrite initiateIfSmaller_lookup_other.
Qed.

Lemma sync_loop_lookup_declined r rcp key users :
  str_lt (Render.nickname r) key = false →
  ∀ s, peersRef
         (foldl (λ acc user, initiateIfSmaller r rcp (VoiceUser.nickname user) acc)
            s users) !! key = peersRef s !! key.
Proof.
  intros Hlt s.
  apply (foldl_preserved (λ acc, peersRef acc !! key = peersRef s !! key));
    [|done].
  intros a u Ha. rewrite <- Ha.
  destruct (decide (VoiceUser.nickname u = key)) as [->|Hne].
  - by rewrite initiateIfSmaller_declines.
  - by apply initiateIfSmaller_lookup_other.
Qed.

Lemma handleWebRTCSignal_unknown rcp payload s :
  peersRef s !! Signal.from payload = None →
  Link (handleWebRTCSignal rcp payload s) (Render.nickname rcp)
    (Signal.from payload) false.
Proof.
  intros Hnone. unfold handleWebRTCSignal. rewrite Hnone.
  destruct (createPeer_Link rcp (Signal.from payload) false s)
    as (id & p & H1 & H2 & H3 & H4 & H5).
  assert (id = length (peerObjs s)) as ->.
  { unfold createPeer in H1. simpl in H1. rewrite lookup_insert_eq in H1.
    congruence. }
  exists (length (peerObjs s)), (applySignal (Signal.signal payload) p).
  unfold peerSignal. simpl. split; [exact H1|].
  split; [rewrite list_lookup_alter_eq; simpl in H2; by rewrite H2|].
  unfold applySignal. by destruct (destroyed p).
Qed.

(** C1. Let A < B.  In every state of every session, an instance in
    initiator role points from its creator to a larger identity, so B never
    holds or creates an initiator instance toward A.  On a presence sync
    that lists B, and on a presence join of B, A's handlers create the
    instance toward B in initiator role when there is no link yet, while
    B's handlers create nothing toward A.  A negotiation payload from a
    peer without a link makes the receiver create the instance in
    non-initiator role, whichever of the two identities is smaller. *)
Theorem C1_initiator_election (A B : string) :
  str_lt A B = true →
  (∀ p0 s p, Reachable p0 s → p ∈ peerObjs s → initiator p = true →
     str_lt (Render.nickname (creator p)) (target p) = true)
  ∧ (∀ p0 s p, Reachable p0 s → p ∈ peerObjs s →
       Render.nickname (creator p) = B → target p = A → initiator p = false)
  ∧ (∀ r rcp roster s c,
       Render.nickname r = A → Render.nickname rcp = A →
       channelRef s = Some c → B ∈ roster → peersRef s !! B = None →
       Link (onPresenceSync r rcp roster s) A B true)
  ∧ (∀ r rcp s,
       Render.nickname r = A → Render.nickname rcp = A →
       peersRef s !! B = None →
       Link (onPresenceJoin r rcp B s) A B true)
  ∧ (∀ r rcp roster s,
       Render.nickname r = B →
       peersRef (onPresenceSync r rcp roster s) !! A = peersRef s !! A)
  ∧ (∀ r rcp s, Render.nickname r = B → onPresenceJoin r rcp A s = s)
  ∧ (∀ me other rcp payload s,
       Render.nickname rcp = me → Signal.from payload = other →
       peersRef s !! other = None →
       Link (handleWebRTCSignal rcp payload s) me other false).
Proof.
  intros Hlt.
  assert (Hinv : ∀ p0 s p, Reachable p0 s → p ∈ peerObjs s → peer_ok p).
  { intros p0 s p Hr Hp. apply Reachable_Inv in Hr as (_ & _ & _ & H4 & _).
    apply list_elem_of_lookup in Hp as [i Hi].
    apply (Forall_lookup_1 _ _ _ _ H4 Hi). }
  split; [intros p0 s p Hr Hp; by apply (Hinv p0 s p)|].
  split.
  { intros p0 s p Hr Hp Hc Ht. destruct (initiator p) eqn:E; [|done].
    pose proof (Hinv p0 s p Hr Hp E) as H. rewrite Hc, Ht in H.
    pose proof (str_lt_asym _ _ Hlt). congruence. }
  split.
  { intros r rcp roster s c <- Hn Hc Hin Hnone. rewrite <- Hn.
    unfold onPresenceSync. rewrite Hc.
    apply sync_loop_initiates; [congruence | done | done]. }
  split.
  { intros r rcp s <- Hn Hnone. rewrite <- Hn.
    apply initiateIfSmaller_initiates; [congruence | done]. }
  split.
  { intros r rcp roster s Hn. unfold onPresenceSync.
    destruct (channelRef s); [|done].
    rewrite sync_loop_lookup_declined; [done|].
    rewrite Hn. by apply str_lt_asym. }
  split.
  { intros r rcp s Hn. apply initiateIfSmaller_declines.
    rewrite Hn. by apply str_lt_asym. }
  intros me other rcp payload s <- <- Hnone.
  by apply handleWebRTCSignal_unknown.
Qed.

Lemma C1_initiator_election_witness :
  str_lt "alice" "bob" = true
  ∧ Link (onPresenceSync (currentRender alice_connected)
            (memo_createPeer alice_connected) ["alice"; "bob"] alice_connected)
      "alice" "bob" true
  ∧ Link (handleWebRTCSignal (memo_createPeer alice_connected)
            (Signal.mk "alice" "bob" 7) alice_connected)
      "alice" "bob" false.
Proof.
  destruct (C1_initiator_election "alice" "bob" eq_refl)
    as (_ & _ & Hsync & _ & _ & _ & Hsig).
  split; [reflexivity|]. split.
  - apply (Hsync _ _ _ _ 0); try reflexivity.
    apply list_elem_of_further, list_elem_of_here.
  - by apply Hsig.
Defined.

(** ** The speaking threshold *)

(** With the 128 bins of a 256-point analyser the level is a multiple of
    1/16384, or 1. *)
Lemma normalizedLevel_dyadic first rest :
  length (first :: rest) = 128 →
  ∃ k : Z, (normalizedLevel first rest == k # 16384)%Q.
Proof.
  intros Hlen. unfold normalizedLevel. rewrite Hlen.
  set (S := reduceSum first rest).
  assert (Hq : (inject_Z S / inject_Z (Z.of_nat 128) / inject_Z 128
                == S # 16384)%Q).
  { unfold Qeq, Qdiv, Qmult, Qinv, inject_Z. simpl. lia. }
  destruct (Q.min_spec (inject_Z S / inject_Z (Z.of_nat 128) / inject_Z 128) 1)
    as [[_ Hm]|[_ Hm]].
  - exists S. by rewrite Hm.
  - exists 16384%Z. by rewrite Hm.
Qed.

(** No multiple of 1/16384 lies between the binary64 value of the literal
    [0.15] and the real number 0.15: on the levels the loop produces, the
    comparison of the source and the comparison with 0.15 agree. *)
Lemma dyadic_threshold (k : Z) :
  ((k # 16384 < 15 # 100)%Q → num_gt (k # 16384) lit_0_15 = false)
  ∧ ((15 # 100 <= k # 16384)%Q → num_gt (k # 16384) lit_0_15 = true).
Proof.
  unfold num_gt. split; intros H.
  - apply negb_false_iff, Qle_bool_iff.
    unfold Qlt, Qle, lit_0_15 in *. simpl in *. lia.
  - apply negb_true_iff, not_true_is_false. intros Hle.
    apply Qle_bool_iff in Hle.
    unfold Qlt, Qle, lit_0_15 in *. simpl in *. lia.
Qed.

Lemma num_gt_strict x y : num_gt x y = true ↔ (y < x)%Q.
Proof.
  unfold num_gt. rewrite negb_true_iff, <- not_true_iff_false, Qle_bool_iff.
  split; [apply Qnot_le_lt | apply Qlt_not_le].
Qed.

(** What [detectVoice] adds to the outbox. *)
Lemma detectVoice_outbox r input s a :
  analyserRef s = Some a →
  match getByteFrequencyData a input with
  | [] => outbox (detectVoice r input s) = outbox s
  | first :: rest =>
      outbox (detectVoice r input s)
      = match channelRef s with
        | Some c =>
            if num_gt (normalizedLevel first rest) lit_0_05
            then outbox s
                 ++ [(c, VoiceActivityMsg
                           (activitySample r (normalizedLevel first rest)))]
            else outbox s
        | None => outbox s
        end
  end.
Proof.
  intros Ha. unfold detectVoice. rewrite Ha.
  destruct (getByteFrequencyData a input) as [|first rest]; [done|].
  unfold send. simpl.
  destruct (num_gt (normalizedLevel first rest) lit_0_05);
    by destruct (channelRef s).
Qed.

(** C4. In every reachable state, a sample the sampling loop broadcasts
    has [isSpeaking = false] when its level is below 0.15 and
    [isSpeaking = true] when its level is 0.15 or more.  The comparison is
    the strict one with the number the literal [0.15] denotes, which itself
    gives [false]; no level the loop can produce lies at or between that
    number and 0.15. *)
Theorem C4_speaking_threshold (p0 : Props) (s : Hook) (r : Render.t)
    (input : list byte) :
  Reachable p0 s →
  (∀ c payload,
     outbox (detectVoice r input s)
     = outbox s ++ [(c, VoiceActivityMsg payload)] →
     ((Activity.audioLevel payload < 15 # 100)%Q →
        Activity.isSpeaking payload = false)
     ∧ ((15 # 100 <= Activity.audioLevel payload)%Q →
          Activity.isSpeaking payload = true))
  ∧ (∀ level, Activity.isSpeaking (activitySample r level) = true
              ↔ (lit_0_15 < level)%Q)
  ∧ Activity.isSpeaking (activitySample r lit_0_15) = false.
Proof.
  intros Hr. split; [|split; [intros level; apply num_gt_strict | done]].
  intros c payload Hout.
  apply Reachable_Inv in Hr as (_ & _ & _ & _ & Hfft).
  assert (Hnil : ∀ x, outbox s ≠ outbox s ++ [x]).
  { intros x Hx. rewrite <- (app_nil_r (outbox s)) in Hx at 1.
    by apply app_inv_head in Hx. }
  destruct (analyserRef s) as [a|] eqn:Ha.
  2:{ unfold detectVoice in Hout. rewrite Ha in Hout. by apply Hnil in Hout. }
  pose proof (detectVoice_outbox r input s a Ha) as Hd.
  assert (Hlen : length (getByteFrequencyData a input) = 128).
  { unfold getByteFrequencyData, frequencyBinCount.
    rewrite length_resize, (Hfft a eq_refl). reflexivity. }
  destruct (getByteFrequencyData a input) as [|first rest];
    [by rewrite Hd in Hout; apply Hnil in Hout|].
  rewrite Hd in Hout.
  destruct (channelRef s) as [c'|]; [|by apply Hnil in Hout].
  destruct (num_gt (normalizedLevel first rest) lit_0_05);
    [|by apply Hnil in Hout].
  apply app_inv_head in Hout. injection Hout as _ <-. simpl.
  destruct (normalizedLevel_dyadic first rest Hlen) as [k Hk].
  destruct (dyadic_threshold k) as [Hlow Hhigh].
  split; intros H; rewrite Hk in H |- *; auto.
Qed.

Lemma C4_speaking_threshold_witness :
  let s := alice_connected in
  let r := memo_initializeAudio s in
  outbox (detectVoice r loud_frame s)
  = outbox s ++ [(0, VoiceActivityMsg (activitySample r 1))]
  ∧ Activity.isSpeaking (activitySample r 1) = true.
Proof.
  pose proof alice_connected_reachable as Hr.
  destruct (C4_speaking_threshold alice_off alice_connected
              (memo_initializeAudio alice_connected) loud_frame Hr)
    as (H & _ & _).
  assert (Hout : outbox (detectVoice (memo_initializeAudio alice_connected)
                           loud_frame alice_connected)
                 = outbox alice_connected
                   ++ [(0, VoiceActivityMsg
                             (activitySample
                                (memo_initializeAudio alice_connected) 1))])
    by reflexivity.
  split; [exact Hout|].
  apply (H 0 _ Hout). simpl. unfold Qle. simpl. lia.
Defined.

(** The 'close' events that simple-peer emits after [disconnectFromVoice]
    has returned find nothing left to undo. *)
Lemma microtasks_after_disconnect s :
  let s' := microtasks (disconnectFromVoice s) in
  peersRef s' = ∅ ∧ localStreamRef s' = None ∧ channelRef s' = None
  ∧ status s' = Disconnected.
Proof.
  simpl. unfold microtasks.
  apply (foldl_preserved
           (λ acc, peersRef acc = ∅ ∧ localStreamRef acc = None
                   ∧ channelRef acc = None ∧ status acc = Disconnected)).
  - intros a id (H1 & H2 & H3 & H4). unfold emitClose.
    repeat case_match; try done.
    unfold onPeerClose, removeRemoteAudio. simpl.
    rewrite H1, delete_empty.
    by destruct (remoteAudiosRef a !! target p).
  - disconnect_nf. by repeat split.
Qed.

(** * Further properties of the hook and of its caller *)

(** ** A peer leaves *)

(** X3. The presence 'leave' handler destroys the instance the map holds
    for the leaving key, drops the key from the peer map and from the audio
    map, detaches its audio element and removes it from the roster, keeping
    the order of the others.  Every other instance and audio element, the
    connection flag, the error, the channel, the local stream and the outbox
    stay as they were; for a key without link and output only the roster
    changes. *)
Theorem X3_leave_is_contained (key : string) (s : Hook) :
  let s' := onPresenceLeave key s in
  peersRef s' = delete key (peersRef s)
  ∧ remoteAudiosRef s' = delete key (remoteAudiosRef s)
  ∧ voiceUsers s'
    = filter (λ user, VoiceUser.nickname user ≠ key) (voiceUsers s)
  ∧ (∀ id, peerObjs s' !! id
           = if bool_decide (peersRef s !! key = Some id)
             then markDestroyed <$> peerObjs s !! id
             else peerObjs s !! id)
  ∧ (∀ a, audios s' !! a
          = if bool_decide (remoteAudiosRef s !! key = Some a)
            then detachAudio <$> audios s !! a
            else audios s !! a)
  ∧ isConnected s' = isConnected s
  ∧ connectionError s' = connectionError s
  ∧ channelRef s' = channelRef s
  ∧ localStreamRef s' = localStreamRef s
  ∧ outbox s' = outbox s
  ∧ (peersRef s !! key = None → remoteAudiosRef s !! key = None →
     s' = set_voiceUsers
            (filter (λ user, VoiceUser.nickname user ≠ key) (voiceUsers s)) s).
Proof.
  intros s'. subst s'. unfold onPresenceLeave.
  destruct (peersRef s !! key) as [id|] eqn:Hk.
  - set (s1 := set_peersRef _ _).
    assert (Hra : remoteAudiosRef s1 = remoteAudiosRef s) by reflexivity.
    assert (Hau : audios s1 = audios s) by reflexivity.
    split; [unfold removeRemoteAudio; by destruct (remoteAudiosRef s1 !! key)|].
    split; [simpl; by rewrite removeRemoteAudio_map|].
    split; [unfold removeRemoteAudio; by destruct (remoteAudiosRef s1 !! key)|].
    split.
    { intros id'. simpl.
      assert (Hpo : peerObjs (removeRemoteAudio key s1)
                    = alter markDestroyed id (peerObjs s)).
      { unfold removeRemoteAudio. by destruct (remoteAudiosRef s1 !! key). }
      rewrite Hpo. case_bool_decide as Hid.
      - injection Hid as <-. apply list_lookup_alter_eq.
      - apply list_lookup_alter_ne. congruence. }
    split.
    { intros a. simpl. rewrite removeRemoteAudio_audios, Hra, Hau.
      destruct (remoteAudiosRef s !! key) as [a'|] eqn:Ha.
      - case_bool_decide as Hid.
        + injection Hid as <-. apply list_lookup_alter_eq.
        + apply list_lookup_alter_ne. congruence.
      - by rewrite bool_decide_eq_false_2. }
    unfold removeRemoteAudio.
    destruct (remoteAudiosRef s1 !! key); simpl;
      (do 5 (split; [done|])); by intros Hn.
  - split; [unfold removeRemoteAudio; destruct (remoteAudiosRef s !! key);
            simpl; symmetry; by apply delete_id|].
    split; [simpl; by rewrite removeRemoteAudio_map|].
    split; [unfold removeRemoteAudio; by destruct (remoteAudiosRef s !! key)|].
    split.
    { intros id'. destruct (bool_decide (None = Some id')) eqn:E;
        [by apply bool_decide_eq_true_1 in E|].
      unfold removeRemoteAudio. by destruct (remoteAudiosRef s !! key). }
    split.
    { intros a. simpl. rewrite removeRemoteAudio_audios.
      destruct (remoteAudiosRef s !! key) as [a'|] eqn:Ha.
      - case_bool_decide as Hid.
        + injection Hid as <-. apply list_lookup_alter_eq.
        + apply list_lookup_alter_ne. congruence.
      - by rewrite bool_decide_eq_false_2. }
    unfold removeRemoteAudio.
    destruct (remoteAudiosRef s !! key) eqn:Ha; simpl.
    + do 5 (split; [done|]). by intros _ Hn.
    + do 5 (split; [done|]). by intros _ _.
Qed.

Lemma X3_leave_is_contained_witness :
  peersRef (onPresenceLeave "bob" alice_deafened_then_bob)
  = delete "bob" (peersRef alice_deafened_then_bob)
  ∧ remoteAudiosRef (onPresenceLeave "bob" alice_deafened_then_bob)
    = delete "bob" (remoteAudiosRef alice_deafened_then_bob).
Proof.
  destruct (X3_leave_is_contained "bob" alice_deafened_then_bob)
    as (H1 & H2 & _).
  split; [exact H1 | exact H2].
Defined.


(** ** Activity samples of the others *)

Lemma applyActivity_identity payload user :
  VoiceUser.nickname (applyActivity payload user) = VoiceUser.nickname user
  ∧ VoiceUser.id (applyActivity payload user) = VoiceUser.id user.
Proof. unfold applyActivity. by case_bool_decide. Qed.

Lemma applyActivity_overwrites p1 p2 user :
  Activity.userId p1 = Activity.userId p2 →
  applyActivity p2 (applyActivity p1 user) = applyActivity p2 user.
Proof.
  intros He. unfold applyActivity. rewrite He.
  destruct (bool_decide (VoiceUser.nickname user = Activity.userId p2)) eqn:E;
    simpl; by rewrite E.
Qed.

(** X4. The 'voice_activity' handler ignores the hook's own samples (the
    channel echoes them), never adds, removes or reorders roster entries,
    leaves the roster alone when the sender is not listed, and keeps only
    the latest sample of a sender: handling two samples of one sender gives
    the roster that the second alone gives. *)
Theorem X4_activity_updates_roster (r : Render.t) (s : Hook) :
  (∀ payload, Activity.userId payload = Render.nickname r →
     onVoiceActivity r payload s = s)
  ∧ (∀ payload,
       map VoiceUser.nickname (voiceUsers (onVoiceActivity r payload s))
       = map VoiceUser.nickname (voiceUsers s)
       ∧ map VoiceUser.id (voiceUsers (onVoiceActivity r payload s))
         = map VoiceUser.id (voiceUsers s))
  ∧ (∀ payload,
       Activity.userId payload ∉ map VoiceUser.nickname (voiceUsers s) →
       voiceUsers (onVoiceActivity r payload s) = voiceUsers s)
  ∧ (∀ p1 p2, Activity.userId p1 = Activity.userId p2 →
       voiceUsers (onVoiceActivity r p2 (onVoiceActivity r p1 s))
       = voiceUsers (onVoiceActivity r p2 s)).
Proof.
  split.
  { intros payload He. unfold onVoiceActivity.
    by rewrite bool_decide_eq_false_2 by (by intros ?). }
  split.
  { intros payload. unfold onVoiceActivity. case_bool_decide; [|done]. simpl.
    rewrite !map_map. split; apply map_ext; intros u;
      by destruct (applyActivity_identity payload u). }
  split.
  { intros payload Hnot. unfold onVoiceActivity. case_bool_decide; [|done].
    simpl. rewrite <- (map_id (voiceUsers s)) at 2.
    apply map_ext_in. intros u Hu. unfold applyActivity.
    rewrite bool_decide_eq_false_2; [done|].
    intros He. apply Hnot. rewrite <- He.
    apply list_elem_of_In, in_map, Hu. }
  intros p1 p2 He. unfold onVoiceActivity. rewrite He.
  case_bool_decide; [|done]. simpl. rewrite map_map.
  apply map_ext. intros u. by apply applyActivity_overwrites.
Qed.

Lemma X4_activity_updates_roster_witness :
  onVoiceActivity (currentRender alice_connected)
    (Activity.mk "alice" true 1 false) alice_connected
  = alice_connected.
Proof.
  exact (proj1 (X4_activity_updates_roster (currentRender alice_connected)
                  alice_connected)
           (Activity.mk "alice" true 1 false) eq_refl).
Defined.


(** ** Negotiation payloads *)

(** X5. A negotiation payload from a peer that already has a link creates
    no instance and leaves the peer map alone: it is handed to the instance
    the map holds, which records it and keeps its role; a destroyed
    instance refuses it (the exception is caught) and nothing changes. *)
Theorem X5_signal_for_known_peer (rcp : Render.t) (payload : Signal.t)
    (s : Hook) (id : nat) :
  peersRef s !! Signal.from payload = Some id →
  let s' := handleWebRTCSignal rcp payload s in
  peersRef s' = peersRef s
  ∧ length (peerObjs s') = length (peerObjs s)
  ∧ (∀ id', id' ≠ id → peerObjs s' !! id' = peerObjs s !! id')
  ∧ (∀ p, peerObjs s !! id = Some p → destroyed p = false →
       ∃ p', peerObjs s' !! id = Some p'
             ∧ signalled p' = signalled p ++ [Signal.signal payload]
             ∧ initiator p' = initiator p ∧ target p' = target p
             ∧ destroyed p' = false)
  ∧ (∀ p, peerObjs s !! id = Some p → destroyed p = true →
       peerObjs s' !! id = Some p).
Proof.
  intros Hk s'. subst s'. unfold handleWebRTCSignal. rewrite Hk.
  unfold peerSignal. simpl.
  split; [done|]. split; [apply length_alter|].
  split; [intros id' Hne; by apply list_lookup_alter_ne|].
  split.
  - intros p Hp Hd. exists (applySignal (Signal.signal payload) p).
    rewrite list_lookup_alter_eq, Hp. unfold applySignal. simpl.
    rewrite !Hd. by repeat split.
  - intros p Hp Hd. rewrite list_lookup_alter_eq, Hp. simpl.
    unfold applySignal. by rewrite Hd.
Qed.

Lemma X5_signal_for_known_peer_witness :
  let s := alice_deafened_then_bob in
  let s' := handleWebRTCSignal (memo_createPeer s) (Signal.mk "alice" "bob" 9) s in
  peersRef s' = peersRef s ∧ length (peerObjs s') = length (peerObjs s).
Proof.
  assert (Hk : peersRef alice_deafened_then_bob !! "bob" = Some 0)
    by (vm_compute; reflexivity).
  destruct (X5_signal_for_known_peer (memo_createPeer alice_deafened_then_bob)
              (Signal.mk "alice" "bob" 9) alice_deafened_then_bob 0 Hk)
    as (H1 & H2 & _).
  split; [exact H1 | exact H2].
Defined.

(** X6. What an instance signals is sent on the channel addressed to the
    instance's target and signed with the creator's nickname.  Delivered to
    the hook of that target, which has no link to the sender yet, it makes
    that hook create the non-initiator instance toward the sender and hand
    it the payload; a hook with any other nickname ignores it. *)
Theorem X6_signal_reaches_its_target (sA sB : Hook) (pA : PeerObj)
    (data c : nat) (rB rcpB : Render.t) :
  channelRef sA = Some c →
  Render.nickname rB = target pA →
  peersRef sB !! Render.nickname (creator pA) = None →
  let m := Signal.mk (target pA) (Render.nickname (creator pA)) data in
  outbox (onPeerSignal pA data sA) = outbox sA ++ [(c, WebRTCSignalMsg m)]
  ∧ (∃ id p, peersRef (onWebRTCSignal rB rcpB m sB)
               !! Render.nickname (creator pA) = Some id
             ∧ peerObjs (onWebRTCSignal rB rcpB m sB) !! id = Some p
             ∧ target p = Render.nickname (creator pA)
             ∧ initiator p = false ∧ destroyed p = false
             ∧ signalled p = [data] ∧ creator p = rcpB)
  ∧ (∀ rC rcpC sC, Render.nickname rC ≠ target pA →
       onWebRTCSignal rC rcpC m sC = sC).
Proof.
  intros Hc HB Hnone m. split; [|split].
  - unfold onPeerSignal, send. by rewrite Hc.
  - unfold onWebRTCSignal. subst m. simpl.
    rewrite bool_decide_eq_true_2 by done.
    unfold handleWebRTCSignal. simpl. rewrite Hnone.
    exists (length (peerObjs sB)),
      (mkPeer (Render.nickname (creator pA)) false (localStreamRef sB)
         false false [data] rcpB).
    unfold peerSignal, createPeer. simpl.
    split; [apply lookup_insert_eq|].
    split; [|by repeat split].
    rewrite list_lookup_alter_eq, list_lookup_middle by done. reflexivity.
  - intros rC rcpC sC Hne. unfold onWebRTCSignal. subst m. simpl.
    rewrite bool_decide_eq_false_2; [done|]. by intros ?.
Qed.

Lemma X6_signal_reaches_its_target_witness :
  let pA := mkPeer "bob" true (Some [0]) false false []
              (memo_createPeer alice_connected) in
  let m := Signal.mk "bob" "alice" 7 in
  outbox (onPeerSignal pA 7 alice_deafened_then_bob)
  = outbox alice_deafened_then_bob ++ [(0, WebRTCSignalMsg m)]
  ∧ onWebRTCSignal (firstRender (mkProps "c1" "carol" true))
      (firstRender (mkProps "c1" "carol" true)) m (initial alice_off)
    = initial alice_off.
Proof.
  assert (Hc : channelRef alice_deafened_then_bob = Some 0)
    by (vm_compute; reflexivity).
  destruct (X6_signal_reaches_its_target alice_deafened_then_bob
              (initial (mkProps "c1" "bob" true))
              (mkPeer "bob" true (Some [0]) false false []
                 (memo_createPeer alice_connected)) 7 0
              (firstRender (mkProps "c1" "bob" true))
              (firstRender (mkProps "c1" "bob" true))
              Hc eq_refl eq_refl) as (H1 & _ & H3).
  split; [exact H1|]. apply H3. simpl. discriminate.
Defined.

(** ** A connection attempt from start to end *)

(** One run of [detectVoice] on an analyser with at least one bin: the level
    and possibly the outbox change, and the next frame is scheduled. *)
Lemma detectVoice_nf r input s a :
  analyserRef s = Some a → frequencyBinCount a ≠ 0 →
  ∃ lvl ob,
    detectVoice r input s
    = set_animationFrameRef (Some (nextFrame s))
        (set_nextFrame (S (nextFrame s))
           (set_frames (frames s ++ [(nextFrame s, r)])
              (set_outbox ob (set_audioLevel lvl s)))).
Proof.
  intros Ha Hn. unfold detectVoice. rewrite Ha.
  unfold getByteFrequencyData.
  destruct (frequencyBinCount a) as [|n]; [done|].
  assert (∃ first rest, resize (S n) x00 input = first :: rest)
    as (first & rest & ->) by (destruct input; simpl; eauto).
  exists (normalizedLevel first rest).
  destruct (num_gt (normalizedLevel first rest) lit_0_05).
  - unfold send. simpl. destruct (channelRef s) as [c|].
    + by eexists.
    + exists (outbox s). by destruct s.
  - exists (outbox s). by destruct s.
Qed.

(** The state in which [connectToVoice] waits for [track(...)] after the
    microphone has been granted. *)
Lemma connect_granted_state r rcp rinit firstFrame s :
  Render.isEnabled r = true → Render.isConnected r = false →
  ∃ lvl ob,
    settle (length (pending s)) (CaptureOutcome (Granted firstFrame))
      (connectToVoice r rcp rinit s)
    = set_pending (pending s ++ [AwaitTrack])
        (set_channelRef (Some (length (channels s)))
           (set_channels
              (channels s
               ++ [mkChannel ("voice:" ++ Render.channelId r)
                     (Render.nickname r) true true false r rcp])
              (set_animationFrameRef (Some (nextFrame s))
                 (set_nextFrame (S (nextFrame s))
                    (set_frames (frames s ++ [(nextFrame s, rinit)])
                       (set_outbox ob
                          (set_audioLevel lvl
                             (set_analyserRef (Some (mkAnalyser 256 lit_0_8))
                                (set_audioContextRef
                                   (Some (length (audioContexts s)))
                                   (set_audioContexts (audioContexts s ++ [false])
                                      (set_localStreamRef
                                         (Some [length (tracks s)])
                                         (set_tracks
                                            (tracks s
                                             ++ [mkTrack AudioTrack true false])
                                            (set_captureRequests
                                               (S (captureRequests s))
                                               (set_connectionError None s)))))))))))))).
Proof.
  intros He Hc. unfold connectToVoice. rewrite He, Hc. simpl.
  unfold settle. simpl. rewrite list_lookup_middle by done.
  rewrite delete_middle, app_nil_r.
  unfold connectToVoice_afterCapture, initializeAudio_settled,
    startVoiceActivityDetection. simpl.
  match goal with
  | |- context [detectVoice rinit firstFrame ?x] =>
      destruct (detectVoice_nf rinit firstFrame x (mkAnalyser 256 lit_0_8)
                  eq_refl) as (lvl & ob & ->); [done|]
  end.
  exists lvl, ob. simpl. by destruct s.
Qed.



(** What [disconnectFromVoice] makes of the stores it releases. *)
Lemma disconnect_released s (s' := disconnectFromVoice s) :
  tracks s' = match localStreamRef s with
              | Some st => stopTracks st (tracks s)
              | None => tracks s
              end
  ∧ audioContexts s'
    = match audioContextRef s with
      | Some c => if isClosed (audioContexts s) c then audioContexts s
                  else <[c := true]> (audioContexts s)
      | None => audioContexts s
      end
  ∧ channels s' = match channelRef s with
                  | Some c => alter unsubscribe c (channels s)
                  | None => channels s
                  end
  ∧ frames s' = match animationFrameRef s with
                | Some (S _ as id) => filter (λ f, f.1 ≠ id) (frames s)
                | _ => frames s
                end
  ∧ localStreamRef s' = None ∧ channelRef s' = None
  ∧ status s' = Disconnected.
Proof. subst s'. disconnect_nf. by repeat split. Qed.

(** The fields of the state a granted attempt is in when [track(...)]
    settles with [ok]. *)
Lemma attempt_settled_fields r rcp rinit firstFrame ok s :
  Render.isEnabled r = true → Render.isConnected r = false →
  let n := length (pending s) in
  let s2 := settle n (TrackOutcome ok)
              (settle n (CaptureOutcome (Granted firstFrame))
                 (connectToVoice r rcp rinit s)) in
  localStreamRef s2 = Some [length (tracks s)]
  ∧ tracks s2 = tracks s ++ [mkTrack AudioTrack true false]
  ∧ audioContextRef s2 = Some (length (audioContexts s))
  ∧ audioContexts s2 = audioContexts s ++ [false]
  ∧ channelRef s2 = Some (length (channels s))
  ∧ channels s2
    = channels s
      ++ [mkChannel ("voice:" ++ Render.channelId r) (Render.nickname r)
            true true false r rcp]
  ∧ animationFrameRef s2 = Some (nextFrame s)
  ∧ frames s2 = frames s ++ [(nextFrame s, rinit)]
  ∧ pending s2 = pending s
  ∧ isConnected s2 = (if ok then true else isConnected s)
  ∧ connectionError s2 = (if ok then None else Some msg_failed).
Proof.
  intros He Hc n s2. subst s2 n.
  destruct (connect_granted_state r rcp rinit firstFrame s He Hc)
    as (lvl & ob & ->).
  unfold settle. simpl. rewrite list_lookup_middle by done.
  rewrite delete_middle, app_nil_r.
  unfold connectToVoice_afterTrack, connectFailed.
  destruct ok; simpl; by repeat split.
Qed.



(** X9. When [track(...)] fails after the microphone was granted, the
    attempt ends in Error with the cause string and [isConnected] as it
    was, but what it had acquired stays acquired: the track is live and in
    [localStreamRef], the channel is subscribed and in [channelRef], the
    sampling frame is scheduled.  Only [disconnectFromVoice] releases them;
    it also clears the error. *)
Theorem X9_relay_failure_keeps_resources (r rcp rinit : Render.t)
    (firstFrame : list byte) (s : Hook) :
  Render.isEnabled r = true → Render.isConnected r = false →
  let n := length (pending s) in
  let s1 := settle n (CaptureOutcome (Granted firstFrame))
              (connectToVoice r rcp rinit s) in
  let s2 := settle n (TrackOutcome false) s1 in
  connectionError s2 = Some msg_failed
  ∧ status s2 = Error
  ∧ isConnected s2 = isConnected s
  ∧ pending s2 = pending s
  ∧ localStreamRef s2 = Some [length (tracks s)]
  ∧ tracks s2 !! length (tracks s) = Some (mkTrack AudioTrack true false)
  ∧ channelRef s2 = Some (length (channels s))
  ∧ (∃ ch, channels s2 !! length (channels s) = Some ch
           ∧ subscribed ch = true ∧ unsubscribed ch = false)
  ∧ (nextFrame s, rinit) ∈ frames s2
  ∧ status (disconnectFromVoice s2) = Disconnected
  ∧ tracks (disconnectFromVoice s2) !! length (tracks s)
    = Some (mkTrack AudioTrack true true)
  ∧ channelRef (disconnectFromVoice s2) = None.
Proof.
  intros He Hc n s1 s2. subst s2 s1 n.
  destruct (attempt_settled_fields r rcp rinit firstFrame false s He Hc)
    as (H1 & H2 & H3 & H4 & H5 & H6 & H7 & H8 & H9 & H10 & H11).
  simpl in H1, H2, H3, H4, H5, H6, H7, H8, H9, H10, H11.
  remember (settle (length (pending s)) (TrackOutcome false) _) as s2 eqn:E.
  clear E.
  destruct (disconnect_released s2) as (D1 & _ & _ & _ & _ & D6 & D7).
  split; [done|].
  split; [unfold status, hasError; by rewrite H11|].
  split; [done|]. split; [done|]. split; [done|].
  split; [rewrite H2; by apply list_lookup_middle|]. split; [done|].
  split; [eexists; rewrite H6; split; [by apply list_lookup_middle | done]|].
  split; [rewrite H8; apply elem_of_app; right; apply list_elem_of_here|].
  split; [done|]. split; [|done].
  rewrite D1, H1, H2. unfold stopTracks. simpl.
  rewrite list_lookup_alter_eq, list_lookup_middle by done. done.
Qed.

Lemma X9_relay_failure_keeps_resources_witness :
  let s := initial alice_on in
  let s1 := settle 0 (CaptureOutcome (Granted []))
              (connectToVoice (currentRender s) (memo_createPeer s)
                 (memo_initializeAudio s) s) in
  let s2 := settle 0 (TrackOutcome false) s1 in
  status s2 = Error ∧ localStreamRef s2 = Some [0]
  ∧ channelRef s2 = Some 0.
Proof.
  destruct (X9_relay_failure_keeps_resources
              (currentRender (initial alice_on))
              (memo_createPeer (initial alice_on))
              (memo_initializeAudio (initial alice_on)) [] (initial alice_on)
              eq_refl eq_refl)
    as (_ & H2 & _ & _ & H5 & _ & H7 & _).
  split; [exact H2|]. split; [exact H5 | exact H7].
Defined.

(** ** Deafen and mute, continued *)

(** X10. [toggleDeafen] changes the deafened flag and the volume of the
    audio elements in the audio map, and nothing else: elements outside the
    map, the other fields of the elements, the muted flag, the local
    tracks, the peers and the outbox are untouched.  Two calls in a row
    restore the flag and leave every attached output at the volume that
    goes with it. *)
Theorem X10_toggleDeafen_only_sets_volumes (s : Hook) :
  let s1 := toggleDeafen (currentRender s) s in
  let s2 := toggleDeafen (currentRender s1) s1 in
  isDeafened s2 = isDeafened s
  ∧ (∀ k a el, remoteAudiosRef s !! k = Some a → audios s !! a = Some el →
       audios s1 !! a
       = Some (mkAudio (srcObject el) (autoplay el)
                 (if isDeafened s then 1 else 0) (paused el) (inDocument el))
       ∧ audios s2 !! a
         = Some (mkAudio (srcObject el) (autoplay el)
                   (if isDeafened s then 0 else 1) (paused el)
                   (inDocument el)))
  ∧ (∀ a, (∀ k, remoteAudiosRef s !! k ≠ Some a) →
       audios s1 !! a = audios s !! a)
  ∧ remoteAudiosRef s1 = remoteAudiosRef s
  ∧ isMuted s1 = isMuted s ∧ tracks s1 = tracks s
  ∧ peersRef s1 = peersRef s ∧ peerObjs s1 = peerObjs s
  ∧ outbox s1 = outbox s.
Proof.
  intros s1 s2.
  assert (Hin : ∀ k a, remoteAudiosRef s !! k = Some a →
                       a ∈ (map_to_list (remoteAudiosRef s)).*2).
  { intros k a Hk. apply list_elem_of_fmap. exists (k, a). split; [done|].
    by apply elem_of_map_to_list. }
  assert (H1 : ∀ a, audios s1 !! a
                    = if bool_decide (a ∈ (map_to_list (remoteAudiosRef s)).*2)
                      then setVolume (if isDeafened s then 1 else 0)
                             <$> audios s !! a
                      else audios s !! a).
  { intros a. subst s1. unfold toggleDeafen. simpl.
    rewrite (foldl_alter_lookup _ snd) by apply setVolume_idem.
    by destruct (isDeafened s). }
  assert (H2 : ∀ a, audios s2 !! a
                    = if bool_decide (a ∈ (map_to_list (remoteAudiosRef s)).*2)
                      then setVolume (if isDeafened s then 0 else 1)
                             <$> audios s1 !! a
                      else audios s1 !! a).
  { intros a. subst s2 s1. unfold toggleDeafen. simpl.
    rewrite (foldl_alter_lookup _ snd) by apply setVolume_idem.
    by destruct (isDeafened s). }
  split; [subst s2 s1; simpl; apply negb_involutive|].
  split.
  { intros k a el Hk Hel. rewrite H2, H1.
    rewrite bool_decide_eq_true_2 by by eapply Hin.
    by rewrite Hel. }
  split.
  { intros a Ha. rewrite H1. rewrite bool_decide_eq_false_2; [done|].
    intros Hi. apply list_elem_of_fmap in Hi as ([k a'] & -> & Hi).
    apply elem_of_map_to_list in Hi. by apply (Ha k). }
  by repeat split.
Qed.

Lemma X10_toggleDeafen_only_sets_volumes_witness :
  let s := alice_deafened_then_bob in
  let s1 := toggleDeafen (currentRender s) s in
  isDeafened (toggleDeafen (currentRender s1) s1) = isDeafened s
  ∧ remoteAudiosRef s1 = remoteAudiosRef s.
Proof.
  destruct (X10_toggleDeafen_only_sets_volumes alice_deafened_then_bob)
    as (H1 & _ & _ & H4 & _).
  split; [exact H1 | exact H4].
Defined.


(** X11. With a local audio track and a channel, [toggleMute] flips the
    flag, leaves the first audio track enabled exactly when the new flag is
    off, without stopping it, and sends one activity sample that carries
    the new flag with [isSpeaking] false and level 0.  The other tracks,
    the stream, the peers and the connection state are untouched: muting
    happens in place. *)
Theorem X11_toggleMute_in_place (s : Hook) (st : list nat) (t : nat)
    (rest : list nat) (c : nat) :
  localStreamRef s = Some st → getAudioTracks st (tracks s) = t :: rest →
  channelRef s = Some c →
  let s' := toggleMute (currentRender s) s in
  isMuted s' = negb (isMuted s)
  ∧ outbox s'
    = outbox s
      ++ [(c, VoiceActivityMsg
                (Activity.mk (p_nickname (props s)) false 0 (isMuted s')))]
  ∧ (∃ tr, tracks s !! t = Some tr
           ∧ tracks s' !! t
             = Some (mkTrack (kind tr) (negb (isMuted s')) (stopped tr)))
  ∧ (∀ t', t' ≠ t → tracks s' !! t' = tracks s !! t')
  ∧ localStreamRef s' = localStreamRef s
  ∧ peersRef s' = peersRef s ∧ peerObjs s' = peerObjs s
  ∧ isConnected s' = isConnected s ∧ channelRef s' = channelRef s.
Proof.
  intros Hst Ht Hc s'. subst s'. unfold toggleMute. rewrite Hst, Ht.
  unfold send. simpl. rewrite Hc. simpl.
  split; [done|]. split; [done|]. split.
  - destruct (getAudioTracks_head_lookup _ _ _ _ Ht) as [tr Htr].
    exists tr. split; [done|].
    rewrite list_lookup_alter_eq, Htr. simpl. unfold setEnabled.
    by rewrite negb_involutive.
  - split; [intros t' Hne; by apply list_lookup_alter_ne|].
    by repeat split.
Qed.

Lemma X11_toggleMute_in_place_witness :
  let s := alice_connected in
  let s' := toggleMute (currentRender s) s in
  isMuted s' = true
  ∧ tracks s' !! 0 = Some (mkTrack AudioTrack false false).
Proof.
  assert (Hst : localStreamRef alice_connected = Some [0])
    by (vm_compute; reflexivity).
  assert (Ht : getAudioTracks [0] (tracks alice_connected) = [0])
    by (vm_compute; reflexivity).
  assert (Hc : channelRef alice_connected = Some 0)
    by (vm_compute; reflexivity).
  assert (Hm : isMuted alice_connected = false) by (vm_compute; reflexivity).
  assert (Htr : tracks alice_connected !! 0
                = Some (mkTrack AudioTrack true false))
    by (vm_compute; reflexivity).
  destruct (X11_toggleMute_in_place alice_connected [0] 0 [] 0 Hst Ht Hc)
    as (H1 & _ & (tr & Hl & H3) & _).
  rewrite Hm in H1. split; [exact H1|].
  rewrite H3, H1. rewrite Htr in Hl. by injection Hl as <-.
Defined.

(** ** The election is total *)

Lemma str_lt_total (a b : string) :
  a ≠ b → str_lt a b = true ∨ str_lt b a = true.
Proof.
  intros Hne. unfold str_lt, String.ltb.
  rewrite (String.compare_antisym b a).
  destruct (String.compare a b) eqn:E; simpl; auto.
  by apply String.compare_eq_iff in E.
Qed.

(** X12. Two sessions with different identities that see each other join,
    neither holding a link to the other yet: exactly one of them creates
    the instance, in initiator role, and the other's join handler leaves
    its state as it is.  A session that sees its own key join does
    nothing. *)
Theorem X12_exactly_one_side_initiates (rA rcpA rB rcpB : Render.t)
    (sA sB : Hook) :
  let A := Render.nickname rA in
  let B := Render.nickname rB in
  A ≠ B → Render.nickname rcpA = A → Render.nickname rcpB = B →
  peersRef sA !! B = None → peersRef sB !! A = None →
  ((Link (onPresenceJoin rA rcpA B sA) A B true
    ∧ onPresenceJoin rB rcpB A sB = sB)
   ∨ (Link (onPresenceJoin rB rcpB A sB) B A true
      ∧ onPresenceJoin rA rcpA B sA = sA))
  ∧ onPresenceJoin rA rcpA A sA = sA.
Proof.
  intros A B Hne HA HB HnB HnA. split.
  - unfold onPresenceJoin.
    destruct (str_lt_total A B Hne) as [Hlt|Hlt].
    + left. split.
      * rewrite <- HA at 1. by apply initiateIfSmaller_initiates.
      * apply initiateIfSmaller_declines. by apply str_lt_asym.
    + right. split.
      * rewrite <- HB at 1. by apply initiateIfSmaller_initiates.
      * apply initiateIfSmaller_declines. by apply str_lt_asym.
  - unfold onPresenceJoin, initiateIfSmaller.
    by rewrite bool_decide_eq_false_2 by (intros H; by apply H).
Qed.

Lemma X12_exactly_one_side_initiates_witness :
  let rA := Render.mk "ops" "alice" true true false false in
  let rB := Render.mk "ops" "bob" true true false false in
  (Link (onPresenceJoin rA rA "bob" alice_connected) "alice" "bob" true
   ∧ onPresenceJoin rB rB "alice" alice_connected = alice_connected)
  ∨ (Link (onPresenceJoin rB rB "alice" alice_connected) "bob" "alice" true
     ∧ onPresenceJoin rA rA "bob" alice_connected = alice_connected).
Proof.
  assert (H1 : peersRef alice_connected !! "bob" = None)
    by (vm_compute; reflexivity).
  assert (H2 : peersRef alice_connected !! "alice" = None)
    by (vm_compute; reflexivity).
  assert (Hne : "alice" ≠ "bob") by discriminate.
  exact (proj1 (X12_exactly_one_side_initiates
                  (Render.mk "ops" "alice" true true false false)
                  (Render.mk "ops" "alice" true true false false)
                  (Render.mk "ops" "bob" true true false false)
                  (Render.mk "ops" "bob" true true false false)
                  alice_connected alice_connected
                  Hne eq_refl eq_refl H1 H2)).
Defined.

(** ** The status indicator *)

(** X13. The status text and the status colour of VoiceControls always
    show the same case.  The indicator reads Error exactly when the session
    status is Error and Disconnected exactly when it is Disconnected; it
    reads Speaking exactly when there is no error, the session is
    connected and not muted, and the local level is above 0.15; a muted
    session never reads Speaking, whatever the level. *)
Theorem X13_status_indicator (s : Hook) :
  match getVoiceStatusText s, getVoiceStatusColor s with
  | TextError, Red500 | TextDisconnected, Gray500 | TextMuted, Yellow500
  | TextSpeaking, Green500 | TextConnected, Blue500 => True
  | _, _ => False
  end
  ∧ (getVoiceStatusText s = TextError ↔ status s = Error)
  ∧ (getVoiceStatusText s = TextDisconnected ↔ status s = Disconnected)
  ∧ (getVoiceStatusText s = TextSpeaking
     ↔ hasError s = false ∧ isConnected s = true ∧ isMuted s = false
       ∧ (lit_0_15 < audioLevel s)%Q)
  ∧ (isMuted s = true → getVoiceStatusText s ≠ TextSpeaking).
Proof.
  unfold getVoiceStatusText, getVoiceStatusColor, status.
  pose proof (num_gt_strict (audioLevel s) lit_0_15) as Hgt.
  destruct (hasError s), (isConnected s), (isMuted s); simpl;
    destruct (num_gt (audioLevel s) lit_0_15) eqn:E; simpl;
    repeat split; try done; try tauto;
    try (intros; intuition congruence).
Qed.

Lemma X13_status_indicator_witness :
  getVoiceStatusText alice_muted ≠ TextSpeaking.
Proof.
  assert (Hm : isMuted alice_muted = true) by (vm_compute; reflexivity).
  destruct (X13_status_indicator alice_muted) as (_ & _ & _ & _ & H5).
  exact (H5 Hm).
Defined.


(** ** Remote audio outputs *)

(** X14. [playRemoteAudio] keeps one output per user.  The new element is
    attached to the stream, in the document, playing, at volume 0 when the
    render it was called from is deafened and 1 otherwise, and the audio
    map points to it; an element the map held for that user before is
    detached; every other element and every other map entry stays as it
    was. *)
Theorem X14_one_output_per_user (r : Render.t) (st : nat) (userId : string)
    (s : Hook) :
  let s' := playRemoteAudio r st userId s in
  let a' := length (audios s) in
  remoteAudiosRef s' = <[userId := a']> (remoteAudiosRef s)
  ∧ audios s' !! a'
    = Some (mkAudio (Some st) true (if Render.isDeafened r then 0 else 1)
              false true)
  ∧ length (audios s') = S a'
  ∧ (∀ a el, remoteAudiosRef s !! userId = Some a → audios s !! a = Some el →
       audios s' !! a = Some (detachAudio el))
  ∧ (∀ a, a < a' → remoteAudiosRef s !! userId ≠ Some a →
       audios s' !! a = audios s !! a)
  ∧ peersRef s' = peersRef s ∧ peerObjs s' = peerObjs s.
Proof.
  intros s' a'. subst s' a'. unfold playRemoteAudio, removeRemoteAudio.
  destruct (remoteAudiosRef s !! userId) as [a0|] eqn:E; simpl.
  - rewrite length_alter, insert_delete_eq.
    split; [done|]. split.
    { rewrite lookup_app_r by (rewrite length_alter; lia).
      by rewrite length_alter, Nat.sub_diag. }
    split; [rewrite length_app, length_alter; simpl; lia|].
    split.
    { intros a el [= <-] Hel.
      rewrite lookup_app_l by (rewrite length_alter; by eapply lookup_lt_Some).
      by rewrite list_lookup_alter_eq, Hel. }
    split; [|done].
    intros a Hlt Hne.
    rewrite lookup_app_l by (rewrite length_alter; lia).
    apply list_lookup_alter_ne. intros ->. by apply Hne.
  - split; [done|]. split.
    { rewrite lookup_app_r by lia. by rewrite Nat.sub_diag. }
    split; [rewrite length_app; simpl; lia|].
    split; [by intros a el [=]|]. split; [|done].
    intros a Hlt _. by rewrite lookup_app_l.
Qed.

Lemma X14_one_output_per_user_witness :
  let s := alice_deafened_then_bob in
  let s' := playRemoteAudio (currentRender s) 43 "bob" s in
  remoteAudiosRef s' = <["bob" := length (audios s)]> (remoteAudiosRef s)
  ∧ length (audios s') = S (length (audios s)).
Proof.
  destruct (X14_one_output_per_user
              (currentRender alice_deafened_then_bob) 43 "bob"
              alice_deafened_then_bob)
    as (H1 & _ & H3 & _).
  split; [exact H1 | exact H3].
Defined.


(** ** The connection effect *)

(** X15. When the parent changes a prop of the hook while the session is
    connected, the session is torn down and no new attempt starts, also
    when the new props still enable voice: the cleanup of the previous
    effect disconnects, and the [connectToVoice] of the new render still
    sees [isConnected] as true and returns at its guard.  No capture is
    requested, no channel is created and nothing is left suspended that
    was not before. *)
Theorem X15_prop_change_while_connected (p : Props) (s : Hook) :
  isConnected s = true → props s ≠ p →
  let s' := setProps p s in
  props s' = p
  ∧ status s' = Disconnected
  ∧ peersRef s' = ∅ ∧ channelRef s' = None ∧ localStreamRef s' = None
  ∧ captureRequests s' = captureRequests s
  ∧ length (channels s') = length (channels s)
  ∧ pending s' = pending s.
Proof.
  intros Hc Hne s'.
  assert (E : ∃ rcp, s' = disconnectFromVoice
                            (set_memo_createPeer rcp (set_props p s))).
  { eexists. subst s'. unfold setProps. cbv zeta.
    rewrite bool_decide_eq_false_2 by done.
    unfold connectionEffect.
    destruct (Render.isEnabled _ && _ && _).
    - unfold connectToVoice.
      replace (Render.isConnected _) with true
        by (unfold currentRender; simpl; by rewrite Hc).
      rewrite orb_true_r. reflexivity.
    - apply disconnectFromVoice_idem. }
  destruct E as [rcp ->].
  split; [by disconnect_nf|]. split; [by disconnect_nf|].
  split; [by disconnect_nf|]. split; [by disconnect_nf|].
  split; [by disconnect_nf|]. split; [by disconnect_nf|].
  split; [|by disconnect_nf].
  disconnect_nf. destruct (channelRef s); [|done]. by rewrite length_alter.
Qed.

Lemma X15_prop_change_while_connected_witness :
  let p := mkProps "lobby" "alice" true in
  let s' := setProps p alice_connected in
  status s' = Disconnected ∧ pending s' = [].
Proof.
  assert (Hc : isConnected alice_connected = true)
    by (vm_compute; reflexivity).
  assert (Hp : pending alice_connected = []) by (vm_compute; reflexivity).
  assert (Hne : props alice_connected ≠ mkProps "lobby" "alice" true).
  { intros H. apply (f_equal p_channelId) in H. vm_compute in H.
    discriminate. }
  destruct (X15_prop_change_while_connected (mkProps "lobby" "alice" true)
              alice_connected Hc Hne)
    as (_ & H2 & _ & _ & _ & _ & _ & H8).
  split; [exact H2|]. by rewrite H8.
Defined.

Lemma connectToVoice_starts r rcp rinit s :
  Render.isEnabled r = true → Render.isConnected r = false →
  props (connectToVoice r rcp rinit s) = props s
  ∧ captureRequests (connectToVoice r rcp rinit s) = S (captureRequests s)
  ∧ pending (connectToVoice r rcp rinit s)
    = pending s ++ [AwaitCapture r rcp rinit].
Proof. intros He Hc. unfold connectToVoice. by rewrite He, Hc. Qed.

(** X16. The connect button of VoiceControls calls [handleToggleVoice]
    whatever it shows.  In a session that is enabled but not connected (an
    attempt failed or is still suspended) the button reads JOIN VOICE, yet
    a click only switches voice off: the error is cleared, the status is
    Disconnected and no capture is requested.  The second click starts the
    one new attempt. *)
Theorem X16_retry_takes_two_clicks (s : Hook) :
  p_isEnabled (props s) = true → isConnected s = false →
  str_truthy (p_channelId (props s)) = true →
  str_truthy (p_nickname (props s)) = true →
  let s1 := handleToggleVoice s in
  let s2 := handleToggleVoice s1 in
  connectButtonLabel s = LabelJoinVoice
  ∧ p_isEnabled (props s1) = false
  ∧ status s1 = Disconnected
  ∧ captureRequests s1 = captureRequests s ∧ pending s1 = pending s
  ∧ connectButtonLabel s1 = LabelJoinVoice
  ∧ p_isEnabled (props s2) = true
  ∧ captureRequests s2 = S (captureRequests s)
  ∧ ∃ r rcp rinit,
      pending s2 = pending s ++ [AwaitCapture r rcp rinit]
      ∧ Render.channelId r = p_channelId (props s)
      ∧ Render.nickname r = p_nickname (props s).
Proof.
  intros He Hc Hch Hn s1 s2.
  assert (E1 : ∃ rcp, s1 = disconnectFromVoice
                 (set_memo_createPeer rcp
                    (set_props (mkProps (p_channelId (props s))
                                  (p_nickname (props s)) false) s))).
  { eexists. subst s1. unfold handleToggleVoice, setProps. cbv zeta.
    rewrite He. simpl negb.
    rewrite bool_decide_eq_false_2
      by (intros H; apply (f_equal p_isEnabled) in H; simpl in H; congruence).
    unfold connectionEffect.
    replace (Render.isEnabled _) with false by (by destruct s).
    simpl. apply disconnectFromVoice_idem. }
  destruct E1 as [rcp1 E1].
  assert (F1 : props s1 = mkProps (p_channelId (props s))
                            (p_nickname (props s)) false
               ∧ isConnected s1 = false ∧ status s1 = Disconnected
               ∧ captureRequests s1 = captureRequests s
               ∧ pending s1 = pending s).
  { rewrite E1. split; [by disconnect_nf|]. split; [by disconnect_nf|].
    split; [by disconnect_nf|]. split; by disconnect_nf. }
  destruct F1 as (Fp & Fc & Fs & Fr & Fq).
  clearbody s1. clear E1.
  assert (E2 : ∃ r rcp rinit s1',
             s2 = connectToVoice r rcp rinit (disconnectFromVoice s1')
             ∧ s1' = set_memo_createPeer rcp
                       (set_props (mkProps (p_channelId (props s))
                                     (p_nickname (props s)) true) s1)
             ∧ Render.isEnabled r = true ∧ Render.isConnected r = false
             ∧ Render.channelId r = p_channelId (props s)
             ∧ Render.nickname r = p_nickname (props s)).
  { do 4 eexists. subst s2. unfold handleToggleVoice, setProps. cbv zeta.
    rewrite Fp. simpl negb. simpl p_channelId. simpl p_nickname.
    rewrite bool_decide_eq_false_2 by discriminate.
    unfold connectionEffect.
    replace (Render.isEnabled _) with true by (by destruct s1).
    replace (str_truthy (Render.channelId _)) with true
      by (destruct s1; simpl; by rewrite Hch).
    replace (str_truthy (Render.nickname _)) with true
      by (destruct s1; simpl; by rewrite Hn).
    simpl andb. cbv iota.
    split; [reflexivity|]. split; [reflexivity|].
    split; [by destruct s1|].
    split; [destruct s1; simpl in *; by rewrite Fc|].
    split; by destruct s1. }
  destruct E2 as (r & rcp & rinit & s1' & E2 & E1' & Er1 & Er0 & Er2 & Er3).
  split; [unfold connectButtonLabel; by rewrite Hc|].
  split; [by rewrite Fp|]. split; [done|]. split; [done|]. split; [done|].
  split; [unfold connectButtonLabel; by rewrite Fc|].
  clearbody s2. subst s2.
  destruct (connectToVoice_starts r rcp rinit (disconnectFromVoice s1')
              Er1 Er0) as (G1 & G2 & G3).
  rewrite G1, G2, G3, disconnectFromVoice_keeps_pending. subst s1'.
  split; [by disconnect_nf|]. split; [disconnect_nf; by rewrite Fr|].
  exists r, rcp, rinit. simpl. by rewrite Fq.
Qed.

Lemma X16_retry_takes_two_clicks_witness :
  let s1 := handleToggleVoice alice_denied in
  let s2 := handleToggleVoice s1 in
  status alice_denied = Error
  ∧ connectButtonLabel alice_denied = LabelJoinVoice
  ∧ captureRequests s1 = 1 ∧ captureRequests s2 = 2.
Proof.
  assert (H0 : status alice_denied = Error) by (vm_compute; reflexivity).
  assert (He : p_isEnabled (props alice_denied) = true)
    by (vm_compute; reflexivity).
  assert (Hc : isConnected alice_denied = false) by (vm_compute; reflexivity).
  assert (Hch : str_truthy (p_channelId (props alice_denied)) = true)
    by (vm_compute; reflexivity).
  assert (Hn : str_truthy (p_nickname (props alice_denied)) = true)
    by (vm_compute; reflexivity).
  assert (Hr : captureRequests alice_denied = 1) by (vm_compute; reflexivity).
  destruct (X16_retry_takes_two_clicks alice_denied He Hc Hch Hn)
    as (H1 & _ & _ & H4 & _ & _ & _ & H8 & _).
  split; [exact H0|]. split; [exact H1|].
  split; [by rewrite H4, Hr | by rewrite H8, Hr].
Defined.

(** ** The sampling loop belongs to the first render *)

Lemma reduceSum_nonneg first rest : (0 <= reduceSum first rest)%Z.
Proof.
  unfold reduceSum.
  assert (Hb : ∀ b, (0 <= byteValue b)%Z) by (intros b; unfold byteValue; lia).
  generalize (Hb first). generalize (byteValue first).
  induction rest as [|b rest IH]; intros a Ha; simpl; [done|].
  apply IH. specialize (Hb b). lia.
Qed.

Lemma normalizedLevel_bounds first rest :
  (0 <= normalizedLevel first rest)%Q ∧ (normalizedLevel first rest <= 1)%Q.
Proof.
  unfold normalizedLevel. split; [|apply Q.le_min_r].
  apply Q.min_glb; [|done].
  pose proof (reduceSum_nonneg first rest) as Hs.
  unfold Qle, Qdiv, Qmult, Qinv, inject_Z. simpl. lia.
Qed.

Lemma Forall_filter_keep {A} (P Q : A → Prop) `{∀ x, Decision (Q x)}
    (l : list A) :
  Forall P l → Forall P (filter Q l).
Proof.
  rewrite !Forall_forall. intros Hl x Hx.
  apply list_elem_of_filter in Hx as [_ Hx]. auto.
Qed.

Lemma Vad_transfer p s s' :
  Vad p s →
  memo_initializeAudio s' = memo_initializeAudio s → frames s' = frames s →
  pending s' = pending s → audioLevel s' = audioLevel s → Vad p s'.
Proof. unfold Vad. intros H -> -> -> ->. exact H. Qed.

Ltac same_vad H := apply (Vad_transfer _ _ _ H); try reflexivity.

Lemma Vad_send p m s : Vad p s → Vad p (send m s).
Proof. intros H. unfold send. destruct (channelRef s); [|done]. same_vad H. Qed.

Lemma Vad_removeRemoteAudio p k s : Vad p s → Vad p (removeRemoteAudio k s).
Proof.
  intros H. unfold removeRemoteAudio.
  destruct (remoteAudiosRef s !! k); [|done]. same_vad H.
Qed.

Lemma Vad_playRemoteAudio p r st k s :
  Vad p s → Vad p (playRemoteAudio r st k s).
Proof.
  intros H. apply (Vad_removeRemoteAudio p k) in H.
  unfold playRemoteAudio. same_vad H.
Qed.

Lemma Vad_createPeer p r k init s : Vad p s → Vad p (createPeer r k init s).
Proof. intros H. unfold createPeer. same_vad H. Qed.

Lemma Vad_set_peerObjs p l s : Vad p s → Vad p (set_peerObjs l s).
Proof. intros H. same_vad H. Qed.

Lemma Vad_set_peersRef p m s : Vad p s → Vad p (set_peersRef m s).
Proof. intros H. same_vad H. Qed.

Lemma Vad_cancelAnimationFrame p id s :
  Vad p s → Vad p (cancelAnimationFrame id s).
Proof.
  intros (H1 & H2 & H3 & H4 & H5). unfold Vad, cancelAnimationFrame. simpl.
  split; [done|]. split; [by apply Forall_filter_keep|]. done.
Qed.

Lemma Vad_detectVoice p input s :
  Vad p s → Vad p (detectVoice (firstRender p) input s).
Proof.
  intros H. unfold detectVoice.
  destruct (analyserRef s); [|done].
  destruct (getByteFrequencyData _ _) as [|first rest]; [done|].
  cbv zeta.
  match goal with |- Vad p (requestAnimationFrame _ ?x) =>
    assert (Hx : Vad p x) end.
  { assert (H' : Vad p (set_audioLevel (normalizedLevel first rest) s)).
    { destruct H as (H1 & H2 & H3 & _).
      destruct (normalizedLevel_bounds first rest).
      unfold Vad. simpl. by repeat split. }
    destruct (num_gt _ _); [by apply Vad_send | done]. }
  destruct Hx as (H1 & H2 & H3 & H4 & H5).
  unfold Vad, requestAnimationFrame. simpl.
  split; [done|]. split; [|done].
  apply Forall_app. split; [done|]. by apply Forall_singleton.
Qed.

Lemma Vad_initiateIfSmaller p r rcp key s :
  Vad p s → Vad p (initiateIfSmaller r rcp key s).
Proof.
  intros H. unfold initiateIfSmaller.
  destruct (_ && _); [|done]. destruct (str_lt _ _); [|done].
  by apply Vad_createPeer.
Qed.

Lemma Vad_onPresenceSync p r rcp roster s :
  Vad p s → Vad p (onPresenceSync r rcp roster s).
Proof.
  intros H. unfold onPresenceSync. destruct (channelRef s); [|done].
  apply (foldl_preserved (Vad p)).
  - intros a u Ha. by apply Vad_initiateIfSmaller.
  - same_vad H.
Qed.

Lemma Vad_onPresenceLeave p key s : Vad p s → Vad p (onPresenceLeave key s).
Proof.
  intros H. unfold onPresenceLeave.
  match goal with |- Vad p (set_voiceUsers _ ?x) => assert (Hx : Vad p x) end.
  { apply Vad_removeRemoteAudio.
    destruct (peersRef s !! key) as [peer|]; [|done].
    unfold peerDestroy. same_vad H. }
  same_vad Hx.
Qed.

Lemma Vad_onVoiceActivity p r payload s :
  Vad p s → Vad p (onVoiceActivity r payload s).
Proof.
  intros H. unfold onVoiceActivity. destruct (bool_decide _); [|done].
  same_vad H.
Qed.

Lemma Vad_onWebRTCSignal p r rcp payload s :
  Vad p s → Vad p (onWebRTCSignal r rcp payload s).
Proof.
  intros H. unfold onWebRTCSignal. destruct (bool_decide _); [|done].
  unfold handleWebRTCSignal, peerSignal.
  destruct (peersRef s !! _).
  - by apply Vad_set_peerObjs.
  - by apply Vad_set_peerObjs, Vad_createPeer.
Qed.

Lemma Vad_connectToVoice p r rcp s :
  Vad p s → Vad p (connectToVoice r rcp (firstRender p) s).
Proof.
  intros H. unfold connectToVoice. destruct (_ || _); [done|].
  destruct H as (H1 & H2 & H3 & H4 & H5). unfold Vad. simpl.
  split; [done|]. split; [done|]. split; [|done].
  apply Forall_app. split; [done|]. by apply Forall_singleton.
Qed.

Lemma Vad_connectFailed p s : Vad p s → Vad p (connectFailed s).
Proof. intros H. unfold connectFailed. same_vad H. Qed.

Lemma Vad_afterCapture p r rcp res s :
  Vad p s → Vad p (connectToVoice_afterCapture r rcp (firstRender p) res s).
Proof.
  intros H. unfold connectToVoice_afterCapture.
  destruct res as [firstFrame|]; simpl.
  - match goal with
    | |- Vad p (set_pending _ (set_channelRef _ (set_channels _ ?x))) =>
        assert (Hx : Vad p x)
    end.
    { unfold startVoiceActivityDetection. simpl. apply Vad_detectVoice.
      same_vad H. }
    destruct Hx as (H1 & H2 & H3 & H4 & H5). unfold Vad. simpl.
    split; [done|]. split; [done|]. split; [|done].
    apply Forall_app. split; [done|]. by apply Forall_singleton.
  - apply Vad_connectFailed. same_vad H.
Qed.

Lemma Vad_settle p i o s : Vad p s → Vad p (settle i o s).
Proof.
  intros H. unfold settle.
  assert (H' : Vad p (set_pending (delete i (pending s)) s)).
  { destruct H as (H1 & H2 & H3 & H4 & H5). unfold Vad. simpl.
    split; [done|]. split; [done|]. split; [|done]. by apply Forall_delete. }
  destruct (pending s !! i) as [[r rcp rinit|]|] eqn:E; destruct o; try done.
  - destruct H as (_ & _ & H3 & _).
    pose proof (Forall_lookup_1 _ _ _ _ H3 E) as Hr. simpl in Hr. subst rinit.
    by apply Vad_afterCapture.
  - unfold connectToVoice_afterTrack. destruct ok.
    + same_vad H'.
    + by apply Vad_connectFailed.
Qed.

Lemma Vad_disconnectFromVoice p s : Vad p s → Vad p (disconnectFromVoice s).
Proof.
  intros (H1 & H2 & H3 & H4 & H5). unfold Vad. disconnect_nf.
  split; [done|]. split; [|done].
  destruct (animationFrameRef s) as [[|n]|]; try done.
  by apply Forall_filter_keep.
Qed.

Lemma Vad_toggleMute p r s : Vad p s → Vad p (toggleMute r s).
Proof.
  intros H. unfold toggleMute.
  destruct (localStreamRef s); [|done].
  destruct (getAudioTracks _ _); [done|].
  apply Vad_send. same_vad H.
Qed.

Lemma Vad_toggleDeafen p r s : Vad p s → Vad p (toggleDeafen r s).
Proof. intros H. unfold toggleDeafen. same_vad H. Qed.

Lemma Vad_connectionEffect p r rcp s :
  Vad p s → Vad p (connectionEffect r rcp (firstRender p) s).
Proof.
  intros H. unfold connectionEffect. destruct (_ && _).
  - by apply Vad_connectToVoice.
  - by apply Vad_disconnectFromVoice.
Qed.

Lemma Vad_setProps p q s : Vad p s → Vad p (setProps q s).
Proof.
  intros H. unfold setProps.
  set (s2 := set_memo_createPeer _ _).
  assert (H' : Vad p s2) by (subst s2; same_vad H).
  assert (Hm : memo_initializeAudio s2 = firstRender p) by apply H.
  destruct (bool_decide _); [done|]. rewrite Hm.
  by apply Vad_connectionEffect, Vad_disconnectFromVoice.
Qed.

Lemma Vad_mount p : Vad p (mount p).
Proof.
  unfold mount.
  change (memo_initializeAudio (initial p)) with (firstRender p).
  apply Vad_connectionEffect. unfold Vad. simpl.
  repeat split; try done.
Qed.

Lemma Vad_onPeerClose p q s : Vad p s → Vad p (onPeerClose q s).
Proof.
  intros H. unfold onPeerClose.
  by apply Vad_removeRemoteAudio, Vad_set_peersRef.
Qed.

Lemma Vad_microtasks p s : Vad p s → Vad p (microtasks s).
Proof.
  intros H. unfold microtasks. apply (foldl_preserved (Vad p)); [|done].
  intros a id Ha. unfold emitClose.
  destruct (peerObjs a !! id) as [q|]; [|done].
  destruct (_ && _); [|done].
  by apply Vad_onPeerClose, Vad_set_peerObjs.
Qed.

Lemma Vad_onChannel p c h s :
  (∀ ch, Vad p s → Vad p (h ch s)) → Vad p s → Vad p (onChannel c h s).
Proof.
  intros Hh H. unfold onChannel.
  destruct (channels s !! c) as [ch|]; [|done].
  destruct (_ && _); [|done]. by apply Hh.
Qed.

Lemma Vad_onPeer p id h s :
  (∀ q, Vad p s → Vad p (h q s)) → Vad p s → Vad p (onPeer id h s).
Proof.
  intros Hh H. unfold onPeer.
  destruct (peerObjs s !! id) as [q|]; [|done].
  destruct (destroyed q); [done|]. by apply Hh.
Qed.

Lemma Vad_animationFrame p id input s :
  Vad p s → Vad p (animationFrame id input s).
Proof.
  intros H. unfold animationFrame.
  destruct (list_find _ _) as [[i [id' r]]|] eqn:E; [|done].
  apply list_find_Some in E as (E & _).
  assert (Hr : r = firstRender p).
  { destruct H as (_ & H2 & _).
    apply (Forall_lookup_1 _ _ _ _ H2 E). }
  subst r. by apply Vad_detectVoice, Vad_cancelAnimationFrame.
Qed.

Lemma Vad_handle p e s : Vad p s → Vad p (handle e s).
Proof.
  intros H. destruct e; simpl.
  - by apply Vad_setProps.
  - replace (memo_initializeAudio s) with (firstRender p)
      by (symmetry; apply H).
    by apply Vad_connectToVoice.
  - by apply Vad_disconnectFromVoice.
  - by apply Vad_toggleMute.
  - by apply Vad_toggleDeafen.
  - by apply Vad_settle.
  - apply Vad_onChannel; [|done]. intros ch _. by apply Vad_onPresenceSync.
  - apply Vad_onChannel; [|done]. intros ch _. by apply Vad_initiateIfSmaller.
  - apply Vad_onChannel; [|done]. intros ch _. by apply Vad_onPresenceLeave.
  - apply Vad_onChannel; [|done]. intros ch _. by apply Vad_onVoiceActivity.
  - apply Vad_onChannel; [|done]. intros ch _. by apply Vad_onWebRTCSignal.
  - apply Vad_onPeer; [|done]. intros q _. by apply Vad_send.
  - apply Vad_onPeer; [|done]. intros q _. by apply Vad_playRemoteAudio.
  - apply Vad_onPeer; [|done]. intros q _.
    apply Vad_onPeerClose. unfold onPeerError.
    by apply Vad_set_peersRef, Vad_set_peerObjs.
  - apply Vad_onPeer; [|done]. intros q _.
    by apply Vad_onPeerClose, Vad_set_peerObjs.
  - by apply Vad_animationFrame.
Qed.

Lemma Reachable_Vad p s : Reachable p s → Vad p s.
Proof.
  intros [tasks ->]. unfold runTasks. apply (foldl_preserved (Vad p)).
  - intros a es Ha. unfold task. apply Vad_microtasks.
    apply (foldl_preserved (Vad p)); [|done].
    intros b e Hb. by apply Vad_handle.
  - apply Vad_mount.
Qed.

(** X1. In every state a mounted hook can be in, the local level the hook
    reports lies between 0 and 1. *)
Theorem X1_level_in_range (p : Props) (s : Hook) :
  Reachable p s → (0 <= audioLevel s)%Q ∧ (audioLevel s <= 1)%Q.
Proof. intros Hr. apply Reachable_Vad in Hr. apply Hr. Qed.

Lemma X1_level_in_range_witness :
  (0 <= audioLevel (run alice_connected [AnimationFrame 1 loud_frame]))%Q
  ∧ (audioLevel (run alice_connected [AnimationFrame 1 loud_frame]) <= 1)%Q.
Proof.
  apply (X1_level_in_range alice_off).
  apply Reachable_run, alice_connected_reachable.
Defined.

Lemma normalizedLevel_128 first rest :
  length (first :: rest) = 128 →
  (normalizedLevel first rest == Qmin (reduceSum first rest # 16384) 1)%Q.
Proof.
  intros Hlen. unfold normalizedLevel. rewrite Hlen.
  set (S := reduceSum first rest).
  assert (Hq : (inject_Z S / inject_Z (Z.of_nat 128) / inject_Z 128
                == S # 16384)%Q).
  { unfold Qeq, Qdiv, Qmult, Qinv, inject_Z. simpl. lia. }
  by rewrite Hq.
Qed.

Lemma level_thresholds (total : Z) :
  num_gt (Qmin (total # 16384) 1) lit_0_05 = (820 <=? total)%Z
  ∧ num_gt (Qmin (total # 16384) 1) lit_0_15 = (2458 <=? total)%Z.
Proof.
  destruct (Q.min_spec (total # 16384) 1) as [[Hlt Hm]|[Hle Hm]];
    rewrite Hm; split; apply eq_iff_eq_true;
    rewrite num_gt_strict, Z.leb_le;
    unfold Qlt, Qle, lit_0_05, lit_0_15 in *; simpl in *; lia.
Qed.

(** X2. One tick of the sampling loop in a reachable state with an
    analyser reads 128 bins.  With [total] the sum of the 128 byte
    magnitudes, the level becomes [min(total / 16384, 1)]; a sample is
    broadcast exactly when a channel is joined and [total] is at least 820
    (the level is above the literal 0.05), and it is marked as speaking
    exactly when [total] is at least 2458.  Below 820, and without a
    channel, nothing is sent. *)
Theorem X2_sample_thresholds (p0 : Props) (s : Hook) (r : Render.t)
    (input : list byte) (a : Analyser) :
  Reachable p0 s → analyserRef s = Some a →
  ∃ first rest,
    getByteFrequencyData a input = first :: rest
    ∧ length (first :: rest) = 128
    ∧ (audioLevel (detectVoice r input s)
       == Qmin (reduceSum first rest # 16384) 1)%Q
    ∧ outbox (detectVoice r input s)
      = match channelRef s with
        | Some c =>
            if (820 <=? reduceSum first rest)%Z
            then outbox s
                 ++ [(c, VoiceActivityMsg
                           (Activity.mk (Render.nickname r)
                              (2458 <=? reduceSum first rest)%Z
                              (audioLevel (detectVoice r input s))
                              (Render.isMuted r)))]
            else outbox s
        | None => outbox s
        end.
Proof.
  intros Hr Ha.
  apply Reachable_Inv in Hr as (_ & _ & _ & _ & Hfft).
  assert (Hlen : length (getByteFrequencyData a input) = 128).
  { unfold getByteFrequencyData, frequencyBinCount.
    rewrite length_resize, (Hfft a Ha). reflexivity. }
  pose proof (detectVoice_outbox r input s a Ha) as Hd.
  assert (Hl : ∀ first rest, getByteFrequencyData a input = first :: rest →
               audioLevel (detectVoice r input s) = normalizedLevel first rest).
  { intros first rest E. unfold detectVoice. rewrite Ha, E. cbv zeta.
    unfold send. simpl.
    destruct (num_gt _ _); [|done]. by destruct (channelRef s). }
  destruct (getByteFrequencyData a input) as [|first rest] eqn:E;
    [discriminate|].
  exists first, rest. split; [done|]. split; [done|].
  rewrite (Hl first rest eq_refl).
  pose proof (normalizedLevel_128 first rest Hlen) as Hn.
  destruct (level_thresholds (reduceSum first rest)) as [H5 H15].
  split; [done|].
  assert (E5 : num_gt (normalizedLevel first rest) lit_0_05
               = (820 <=? reduceSum first rest)%Z) by (by rewrite Hn).
  assert (E15 : num_gt (normalizedLevel first rest) lit_0_15
                = (2458 <=? reduceSum first rest)%Z) by (by rewrite Hn).
  rewrite Hd. unfold activitySample. by rewrite E5, E15.
Qed.

Lemma X2_sample_thresholds_witness :
  ∃ first rest,
    getByteFrequencyData (mkAnalyser 256 lit_0_8) loud_frame = first :: rest
    ∧ length (first :: rest) = 128
    ∧ (audioLevel (detectVoice (currentRender alice_connected) loud_frame
                     alice_connected)
       == Qmin (reduceSum first rest # 16384) 1)%Q
    ∧ outbox (detectVoice (currentRender alice_connected) loud_frame
                alice_connected)
      = match channelRef alice_connected with
        | Some c =>
            if (820 <=? reduceSum first rest)%Z
            then outbox alice_connected
                 ++ [(c, VoiceActivityMsg
                           (Activity.mk
                              (Render.nickname (currentRender alice_connected))
                              (2458 <=? reduceSum first rest)%Z
                              (audioLevel
                                 (detectVoice (currentRender alice_connected)
                                    loud_frame alice_connected))
                              (Render.isMuted
                                 (currentRender alice_connected))))]
            else outbox alice_connected
        | None => outbox alice_connected
        end.
Proof.
  assert (Ha : analyserRef alice_connected = Some (mkAnalyser 256 lit_0_8))
    by (vm_compute; reflexivity).
  exact (X2_sample_thresholds alice_off alice_connected
           (currentRender alice_connected) loud_frame
           (mkAnalyser 256 lit_0_8) alice_connected_reachable Ha).
Defined.

(** What one run of [detectVoice] adds to the outbox, whatever the state. *)
Lemma detectVoice_sample r input s :
  outbox (detectVoice r input s) = outbox s
  ∨ ∃ c lvl, outbox (detectVoice r input s)
             = outbox s ++ [(c, VoiceActivityMsg (activitySample r lvl))].
Proof.
  unfold detectVoice.
  destruct (analyserRef s); [|by left].
  destruct (getByteFrequencyData _ _) as [|first rest]; [by left|].
  cbv zeta. unfold send. simpl.
  destruct (num_gt _ lit_0_05); [|by left].
  destruct (channelRef s) as [c|]; [|by left].
  right. by exists c, (normalizedLevel first rest).
Qed.

(** X19. The sampling loop is the one of the first render:
    [initializeAudio] has an empty dependency list, so every frame it
    schedules runs the [detectVoice] that closed over the [nickname] and
    the [isMuted] of the render that mounted the hook.  In every reachable
    state, a sample sent by an animation frame, or by the first detection
    that runs when a capture is granted, carries the nickname the hook was
    mounted with and [isMuted = false], whatever the nickname prop and the
    muted flag are by then. *)
Theorem X19_samples_report_first_render (p : Props) (s : Hook) (e : Event) :
  Reachable p s →
  (∃ id input, e = AnimationFrame id input)
  ∨ (∃ i res, e = Settle i (CaptureOutcome res)) →
  outbox (handle e s) = outbox s
  ∨ ∃ c lvl,
      outbox (handle e s)
      = outbox s
        ++ [(c, VoiceActivityMsg
                  (Activity.mk (p_nickname p) (num_gt lvl lit_0_15) lvl
                     false))].
Proof.
  intros Hr He. apply Reachable_Vad in Hr as (_ & Hf & Hp & _).
  destruct He as [(id & input & ->)|(i & res & ->)]; simpl.
  - unfold animationFrame.
    destruct (list_find _ _) as [[j [id' r]]|] eqn:E; [|by left].
    apply list_find_Some in E as (E & _).
    pose proof (Forall_lookup_1 _ _ _ _ Hf E) as Hr. simpl in Hr. subst r.
    apply (detectVoice_sample (firstRender p) input
             (cancelAnimationFrame id s)).
  - unfold settle.
    destruct (pending s !! i) as [[r rcp rinit|]|] eqn:E; [|by left..].
    pose proof (Forall_lookup_1 _ _ _ _ Hp E) as Hr. simpl in Hr. subst rinit.
    unfold connectToVoice_afterCapture.
    destruct res as [firstFrame|]; [|by left].
    simpl. unfold startVoiceActivityDetection. simpl.
    match goal with |- context [detectVoice _ _ ?x] =>
      apply (detectVoice_sample (firstRender p) firstFrame x) end.
Qed.

Lemma X19_samples_report_first_render_witness :
  isMuted alice_muted = true
  ∧ (outbox (handle (AnimationFrame 1 loud_frame) alice_muted)
     = outbox alice_muted
     ∨ ∃ c lvl,
         outbox (handle (AnimationFrame 1 loud_frame) alice_muted)
         = outbox alice_muted
           ++ [(c, VoiceActivityMsg
                     (Activity.mk (p_nickname alice_off)
                        (num_gt lvl lit_0_15) lvl false))]).
Proof.
  split; [vm_compute; reflexivity|].
  apply (X19_samples_report_first_render alice_off alice_muted).
  - apply Reachable_run, alice_connected_reachable.
  - left. by exists 1, loud_frame.
Defined.

(** ** What the peer map and the audio map guarantee *)

(** [Mesh] only looks at the two maps and the two stores. *)
Lemma Mesh_same s s' :
  peersRef s' = peersRef s → peerObjs s' = peerObjs s →
  remoteAudiosRef s' = remoteAudiosRef s → audios s' = audios s →
  Mesh s → Mesh s'.
Proof.
  unfold Mesh, map_live, audio_doc. intros -> -> -> ->. done.
Qed.

Ltac same_mesh H := apply (Mesh_same _ _ eq_refl eq_refl eq_refl eq_refl H).

Lemma lookup_alter_rel {A} (f : A → A) (i : nat) (l : list A) (j : nat)
    (x : A) :
  alter f i l !! j = Some x →
  ∃ y, l !! j = Some y ∧ ((j ≠ i ∧ x = y) ∨ (j = i ∧ x = f y)).
Proof.
  destruct (decide (j = i)) as [->|Hne].
  - rewrite list_lookup_alter_eq. destruct (l !! i) as [y|]; simpl; [|done].
    intros [= <-]. eauto.
  - rewrite list_lookup_alter_ne by done. eauto.
Qed.

Lemma Mesh_createPeer r k init s : Mesh s → Mesh (createPeer r k init s).
Proof.
  intros (H1 & H2). unfold createPeer. split; [|exact H2].
  intros k' id. simpl. intros Hl.
  destruct (decide (k' = k)) as [->|Hne].
  - rewrite lookup_insert_eq in Hl. injection Hl as <-.
    eexists. split; [by apply list_lookup_middle | done].
  - rewrite lookup_insert_ne in Hl by done.
    destruct (H1 k' id Hl) as (p & Hp & Ht & Hd). exists p.
    split; [by apply lookup_app_l_Some | done].
Qed.

Lemma Mesh_alter_peer f id s :
  (∀ p, target (f p) = target p ∧ destroyed (f p) = destroyed p) →
  Mesh s → Mesh (set_peerObjs (alter f id (peerObjs s)) s).
Proof.
  intros Hf (H1 & H2). split; [|exact H2].
  intros k id'. simpl. intros Hl.
  destruct (H1 k id' Hl) as (p & Hp & Ht & Hd).
  destruct (Hf p) as (F1 & F2).
  destruct (decide (id' = id)) as [->|Hne].
  - exists (f p). rewrite list_lookup_alter_eq, Hp.
    split; [done|]. by rewrite F1, F2.
  - exists p. by rewrite list_lookup_alter_ne.
Qed.

Lemma Mesh_peerSignal id sig s : Mesh s → Mesh (peerSignal id sig s).
Proof.
  apply Mesh_alter_peer. intros p. unfold applySignal.
  destruct (destroyed p) eqn:E; simpl; by repeat split.
Qed.

Lemma Mesh_initiateIfSmaller r rcp key s :
  Mesh s → Mesh (initiateIfSmaller r rcp key s).
Proof.
  intros H. unfold initiateIfSmaller.
  destruct (_ && _); [|done]. destruct (str_lt _ _); [|done].
  by apply Mesh_createPeer.
Qed.

Lemma Mesh_onPresenceSync r rcp roster s :
  Mesh s → Mesh (onPresenceSync r rcp roster s).
Proof.
  intros H. unfold onPresenceSync. destruct (channelRef s); [|done].
  apply (foldl_preserved Mesh).
  - intros a u Ha. by apply Mesh_initiateIfSmaller.
  - same_mesh H.
Qed.

Lemma Mesh_onWebRTCSignal r rcp payload s :
  Mesh s → Mesh (onWebRTCSignal r rcp payload s).
Proof.
  intros H. unfold onWebRTCSignal. destruct (bool_decide _); [|done].
  unfold handleWebRTCSignal.
  destruct (peersRef s !! _) eqn:E.
  - by apply Mesh_peerSignal.
  - by apply Mesh_peerSignal, Mesh_createPeer.
Qed.

Lemma detached_detachAudio el : detached (detachAudio el).
Proof. done. Qed.

(** Dropping the audio output of [k], as [removeRemoteAudio] does. *)
Lemma audio_doc_remove k s s' :
  remoteAudiosRef s' = delete k (remoteAudiosRef s) →
  audios s' = match remoteAudiosRef s !! k with
              | Some a => alter detachAudio a (audios s)
              | None => audios s
              end →
  audio_doc s → audio_doc s'.
Proof.
  intros Hm Ha H a el. rewrite Hm, Ha. intros Hel.
  destruct (remoteAudiosRef s !! k) as [a0|] eqn:E.
  - apply lookup_alter_rel in Hel as (y & Hy & [[Hne ->]|[_ ->]]);
      [|left; apply detached_detachAudio].
    destruct (H a y Hy) as [Hd|[k' Hk']]; [by left|].
    right. exists k'. rewrite lookup_delete_ne; [done|].
    intros <-. congruence.
  - destruct (H a el Hel) as [Hd|[k' Hk']]; [by left|].
    right. exists k'. rewrite lookup_delete_ne; [done|].
    intros <-. congruence.
Qed.

(** The instance [id], whose target is [key], is destroyed or closed and
    the entry of [key] dropped: the entries that stay hold other
    instances. *)
Lemma map_live_drop g key id s s' :
  map_live s → (∀ p, peerObjs s !! id = Some p → target p = key) →
  peersRef s' = delete key (peersRef s) →
  peerObjs s' = alter g id (peerObjs s) →
  map_live s'.
Proof.
  intros H1 Ht Hp Ho k id'. rewrite Hp, Ho. intros Hl.
  destruct (decide (k = key)) as [->|Hne];
    [by rewrite lookup_delete_eq in Hl|].
  rewrite lookup_delete_ne in Hl by done.
  destruct (H1 k id' Hl) as (p & Hq & Hk & Hd). exists p.
  split; [|done]. rewrite list_lookup_alter_ne; [done|].
  intros <-. apply Hne. rewrite <- Hk. by apply Ht.
Qed.

Lemma removeRemoteAudio_peers k s :
  peersRef (removeRemoteAudio k s) = peersRef s
  ∧ peerObjs (removeRemoteAudio k s) = peerObjs s.
Proof. unfold removeRemoteAudio. by destruct (remoteAudiosRef s !! k). Qed.

Lemma onPresenceLeave_fields key s :
  let s' := onPresenceLeave key s in
  peersRef s' = delete key (peersRef s)
  ∧ peerObjs s' = match peersRef s !! key with
                  | Some id => alter markDestroyed id (peerObjs s)
                  | None => peerObjs s
                  end
  ∧ remoteAudiosRef s' = delete key (remoteAudiosRef s)
  ∧ audios s' = match remoteAudiosRef s !! key with
                | Some a => alter detachAudio a (audios s)
                | None => audios s
                end.
Proof.
  unfold onPresenceLeave. simpl.
  rewrite removeRemoteAudio_map, removeRemoteAudio_audios.
  rewrite (proj1 (removeRemoteAudio_peers _ _)),
    (proj2 (removeRemoteAudio_peers _ _)).
  destruct (peersRef s !! key) as [id|] eqn:E; simpl; [done|].
  split; [|done]. symmetry. by apply delete_id.
Qed.

Lemma Mesh_onPresenceLeave key s : Mesh s → Mesh (onPresenceLeave key s).
Proof.
  intros (H1 & H2).
  destruct (onPresenceLeave_fields key s) as (F1 & F2 & F3 & F4).
  split; [|by apply (audio_doc_remove key s)].
  destruct (peersRef s !! key) as [id|] eqn:E.
  - apply (map_live_drop markDestroyed key id s); try done.
    intros p Hp. destruct (H1 key id E) as (q & Hq & Ht & _). congruence.
  - rewrite delete_id in F1 by done.
    unfold map_live. rewrite F1, F2. exact H1.
Qed.

(** 'close' on the instance [id]: simple-peer has closed it, the handler
    drops the entry and the audio output of its target. *)
Lemma Mesh_close id p s s' :
  Mesh s → peerObjs s !! id = Some p →
  peersRef s' = delete (target p) (peersRef s) →
  peerObjs s' = alter markClosed id (peerObjs s) →
  remoteAudiosRef s' = delete (target p) (remoteAudiosRef s) →
  audios s' = match remoteAudiosRef s !! target p with
              | Some a => alter detachAudio a (audios s)
              | None => audios s
              end →
  Mesh s'.
Proof.
  intros (H1 & H2) Hp F1 F2 F3 F4.
  split; [|by apply (audio_doc_remove (target p) s)].
  apply (map_live_drop markClosed (target p) id s); try done.
  intros q Hq. congruence.
Qed.

Lemma onPeerClose_fields p s :
  peersRef (onPeerClose p s) = delete (target p) (peersRef s)
  ∧ peerObjs (onPeerClose p s) = peerObjs s
  ∧ remoteAudiosRef (onPeerClose p s) = delete (target p) (remoteAudiosRef s)
  ∧ audios (onPeerClose p s)
    = match remoteAudiosRef s !! target p with
      | Some a => alter detachAudio a (audios s)
      | None => audios s
      end.
Proof.
  unfold onPeerClose.
  rewrite removeRemoteAudio_map, removeRemoteAudio_audios.
  rewrite (proj1 (removeRemoteAudio_peers _ _)),
    (proj2 (removeRemoteAudio_peers _ _)).
  done.
Qed.

Lemma Mesh_peerCloses id s : Mesh s → Mesh (peerCloses id s).
Proof.
  intros H. unfold peerCloses, onPeer.
  destruct (peerObjs s !! id) as [p|] eqn:E; [|done].
  destruct (destroyed p) eqn:Hd; [done|].
  destruct (onPeerClose_fields p
              (set_peerObjs (alter markClosed id (peerObjs s)) s))
    as (F1 & F2 & F3 & F4).
  by apply (Mesh_close id p s _ H E).
Qed.

Lemma Mesh_peerFails id s : Mesh s → Mesh (peerFails id s).
Proof.
  intros H. unfold peerFails, onPeer.
  destruct (peerObjs s !! id) as [p|] eqn:E; [|done].
  destruct (destroyed p) eqn:Hd; [done|].
  destruct (onPeerClose_fields p
              (onPeerError p
                 (set_peerObjs (alter markClosed id (peerObjs s)) s)))
    as (F1 & F2 & F3 & F4).
  simpl in F1. rewrite delete_delete_eq in F1.
  by apply (Mesh_close id p s _ H E).
Qed.

Lemma Mesh_playRemoteAudio r st k s : Mesh s → Mesh (playRemoteAudio r st k s).
Proof.
  intros (M1 & M2).
  set (s1 := removeRemoteAudio k s).
  assert (H1 : remoteAudiosRef s1 = delete k (remoteAudiosRef s))
    by apply removeRemoteAudio_map.
  assert (Hd : audio_doc s1).
  { apply (audio_doc_remove k s); [done| |done].
    apply removeRemoteAudio_audios. }
  assert (Hs : peersRef s1 = peersRef s ∧ peerObjs s1 = peerObjs s)
    by apply removeRemoteAudio_peers.
  destruct Hs as [Hs1 Hs2].
  unfold playRemoteAudio. fold s1. cbv zeta.
  unfold Mesh, map_live, audio_doc. simpl. rewrite Hs1, Hs2, H1.
  split; [done|].
  intros a el Hel.
  apply lookup_app_Some in Hel as [Hel|[Hlen Hel]].
  - destruct (Hd a el Hel) as [?|[k' Hk']]; [by left|].
    right. exists k'. rewrite H1 in Hk'.
    destruct (decide (k' = k)) as [->|Hne];
      [by rewrite lookup_delete_eq in Hk'|].
    by rewrite lookup_insert_ne.
  - apply list_lookup_singleton_Some in Hel as [Hi _].
    right. exists k. rewrite lookup_insert_eq. f_equal. lia.
Qed.

Lemma Mesh_toggleDeafen r s : Mesh s → Mesh (toggleDeafen r s).
Proof.
  intros (M1 & M5). unfold toggleDeafen. split; [done|].
  intros a el. simpl.
  rewrite (foldl_alter_lookup _ snd) by apply setVolume_idem.
  intros Hel.
  assert (∃ y, audios s !! a = Some y ∧ (el = y ∨ ∃ v, el = setVolume v y))
    as (y & Hy & Hor).
  { destruct (bool_decide _); [|eauto].
    destruct (audios s !! a) as [y|]; simpl in Hel; [|done].
    injection Hel as <-. eauto. }
  destruct (M5 a y Hy) as [Hd|?]; [left|by right].
  destruct Hor as [->|[v ->]]; done.
Qed.

Lemma Mesh_smf s s' : same_mesh_fields s s' → Mesh s → Mesh s'.
Proof. intros (H1 & H2 & H3 & H4). by apply Mesh_same. Qed.

Lemma smf_send m s : same_mesh_fields s (send m s).
Proof. unfold send. by destruct (channelRef s). Qed.

Lemma smf_detectVoice r input s : same_mesh_fields s (detectVoice r input s).
Proof.
  unfold detectVoice. destruct (analyserRef s); [|done].
  destruct (getByteFrequencyData _ _); [done|]. cbv zeta.
  destruct (num_gt _ _); [|done].
  unfold send. simpl. by destruct (channelRef s).
Qed.

Lemma smf_connectToVoice r rcp rinit s :
  same_mesh_fields s (connectToVoice r rcp rinit s).
Proof. unfold connectToVoice. by destruct (_ || _). Qed.

Lemma smf_settle i o s : same_mesh_fields s (settle i o s).
Proof.
  unfold settle.
  destruct (pending s !! i) as [[r rcp rinit|]|]; destruct o as [res|ok];
    try done.
  - unfold connectToVoice_afterCapture.
    destruct res as [firstFrame|]; [|done]. simpl.
    unfold startVoiceActivityDetection. simpl.
    match goal with |- context [detectVoice ?r ?f ?x] =>
      destruct (smf_detectVoice r f x) as (H1 & H2 & H3 & H4) end.
    unfold same_mesh_fields. simpl. by rewrite H1, H2, H3, H4.
  - unfold connectToVoice_afterTrack. by destruct ok.
Qed.

Lemma smf_toggleMute r s : same_mesh_fields s (toggleMute r s).
Proof.
  unfold toggleMute. destruct (localStreamRef s); [|done].
  destruct (getAudioTracks _ _); [done|].
  unfold send. simpl. by destruct (channelRef s).
Qed.

Lemma smf_animationFrame id input s :
  same_mesh_fields s (animationFrame id input s).
Proof.
  unfold animationFrame.
  destruct (list_find _ _) as [[j [id' r]]|]; [|done].
  apply (smf_detectVoice r input (cancelAnimationFrame id s)).
Qed.

Lemma smf_onVoiceActivity r payload s :
  same_mesh_fields s (onVoiceActivity r payload s).
Proof. unfold onVoiceActivity. by destruct (bool_decide _). Qed.

(** *** Disconnecting *)

Lemma closePeers_audios_None l s a :
  audios s !! a = None → audios (closePeers l s) !! a = None.
Proof.
  revert s. induction l as [|[k id] l IH]; intros s H; [done|].
  rewrite closePeers_cons. apply IH. rewrite closeStep_audios.
  destruct (remoteAudiosRef s !! k) as [a'|]; [|done].
  destruct (decide (a' = a)) as [->|Hne].
  - by rewrite list_lookup_alter_eq, H.
  - by rewrite list_lookup_alter_ne.
Qed.

Lemma disconnectFromVoice_remoteAudios s k :
  remoteAudiosRef (disconnectFromVoice s) !! k
  = if bool_decide (k ∈ (map_to_list (peersRef s)).*1) then None
    else remoteAudiosRef s !! k.
Proof. disconnect_nf. by rewrite closePeers_remoteAudios. Qed.

Lemma disconnectFromVoice_audios s :
  ∃ s3, audios (disconnectFromVoice s)
        = audios (closePeers (map_to_list (peersRef s)) s3)
        ∧ audios s3 = audios s ∧ remoteAudiosRef s3 = remoteAudiosRef s.
Proof. eexists. split; [disconnect_nf; reflexivity|]. done. Qed.

Lemma key_in_entries (m : gmap string nat) k id :
  m !! k = Some id →
  k ∈ (map_to_list m).*1 ∧ id ∈ (map_to_list m).*2.
Proof.
  intros H. split; apply list_elem_of_fmap; exists (k, id);
    (split; [done | by apply elem_of_map_to_list]).
Qed.

(** After [disconnectFromVoice] in a state where every audio entry belongs
    to a key of the peer map, every audio element is detached. *)
Lemma disconnect_audios_detached s a el' :
  audio_linked s → audio_doc s →
  audios (disconnectFromVoice s) !! a = Some el' → detached el'.
Proof.
  intros Hl Hd.
  destruct (disconnectFromVoice_audios s) as (s3 & -> & E1 & E2).
  intros Hel.
  destruct (audios s !! a) as [el|] eqn:E.
  2:{ rewrite closePeers_audios_None in Hel; [done | by rewrite E1]. }
  destruct (Hd a el E) as [Hdet|[k Hk]].
  - destruct (closePeers_audios_any (map_to_list (peersRef s)) s3 a el)
      as (el'' & H' & Hor); [by rewrite E1|].
    rewrite H' in Hel. injection Hel as <-.
    destruct Hor as [->| ->]; [done | apply detached_detachAudio].
  - destruct (peersRef s !! k) as [id|] eqn:Ep.
    2:{ exfalso. apply (Hl k); [by rewrite Hk | done]. }
    rewrite (closePeers_audios _ s3 k a el) in Hel.
    + injection Hel as <-. apply detached_detachAudio.
    + by apply (key_in_entries _ _ id).
    + by rewrite E2.
    + by rewrite E1.
Qed.

Lemma Mesh_disconnectFromVoice s : Mesh s → Mesh (disconnectFromVoice s).
Proof.
  intros (H1 & H2).
  assert (Hp : peersRef (disconnectFromVoice s) = ∅) by (by disconnect_nf).
  split; [intros k id; by rewrite Hp, lookup_empty|].
  intros a el' Hel.
  destruct (disconnectFromVoice_audios s) as (s3 & Ea & E1 & E2).
  rewrite Ea in Hel.
  destruct (audios s !! a) as [el|] eqn:E.
  2:{ rewrite closePeers_audios_None in Hel; [done | by rewrite E1]. }
  destruct (closePeers_audios_any (map_to_list (peersRef s)) s3 a el)
    as (el'' & H' & Hor); [by rewrite E1|].
  destruct (H2 a el E) as [Hdet|[k Hk]].
  - left. rewrite H' in Hel. injection Hel as <-.
    destruct Hor as [->| ->]; [done | apply detached_detachAudio].
  - destruct (peersRef s !! k) as [id|] eqn:Ep.
    + left. rewrite (closePeers_audios _ s3 k a el) in Hel.
      * injection Hel as <-. apply detached_detachAudio.
      * by apply (key_in_entries _ _ id).
      * by rewrite E2.
      * by rewrite E1.
    + right. exists k. rewrite disconnectFromVoice_remoteAudios.
      rewrite bool_decide_eq_false_2; [done|].
      intros Hin. apply entry_of_key in Hin as [id Hid]. congruence.
Qed.

(** *** Microtasks *)

Lemma Mesh_emitClose id s : Mesh s → Mesh (emitClose id s).
Proof.
  intros H. unfold emitClose.
  destruct (peerObjs s !! id) as [p|] eqn:E; [|done].
  destruct (_ && _); [|done].
  destruct (onPeerClose_fields p
              (set_peerObjs (alter markClosed id (peerObjs s)) s))
    as (F1 & F2 & F3 & F4).
  by apply (Mesh_close id p s _ H E).
Qed.

Lemma Mesh_microtasks s : Mesh s → Mesh (microtasks s).
Proof.
  intros H. unfold microtasks. apply (foldl_preserved Mesh); [|done].
  intros a id Ha. by apply Mesh_emitClose.
Qed.

Lemma emitClose_peerObjs id s :
  peerObjs (emitClose id s)
  = match peerObjs s !! id with
    | Some p => if destroyed p && negb (closeEmitted p)
                then alter markClosed id (peerObjs s)
                else peerObjs s
    | None => peerObjs s
    end.
Proof.
  unfold emitClose. destruct (peerObjs s !! id) as [p|]; [|done].
  destruct (_ && _); [|done].
  by rewrite (proj1 (proj2 (onPeerClose_fields _ _))).
Qed.

Lemma closed_below_emitClose id s :
  closed_below id s →
  closed_below (S id) (emitClose id s)
  ∧ length (peerObjs (emitClose id s)) = length (peerObjs s).
Proof.
  intros Hb. unfold closed_below. rewrite emitClose_peerObjs.
  destruct (peerObjs s !! id) as [p|] eqn:E.
  - destruct (destroyed p && negb (closeEmitted p)) eqn:C.
    + split; [|by rewrite length_alter].
      intros id' p' Hlt Hl Hd.
      apply lookup_alter_rel in Hl as (y & Hy & [[Hne ->]|[_ ->]]); [|done].
      apply (Hb id'); [lia | done..].
    + split; [|done]. intros id' p' Hlt Hl Hd.
      destruct (decide (id' = id)) as [->|Hne].
      * rewrite E in Hl. injection Hl as <-. rewrite Hd in C. simpl in C.
        by apply negb_false_iff in C.
      * apply (Hb id'); [lia | done..].
  - split; [|done]. intros id' p' Hlt Hl Hd.
    destruct (decide (id' = id)) as [->|Hne]; [congruence|].
    apply (Hb id'); [lia | done..].
Qed.

Lemma microtasks_loop n :
  ∀ a s, closed_below a s →
    let s' := foldl (λ acc id, emitClose id acc) s (seq a n) in
    closed_below (a + n) s' ∧ length (peerObjs s') = length (peerObjs s).
Proof.
  induction n as [|n IH]; intros a s Hb; simpl.
  - rewrite Nat.add_0_r. done.
  - destruct (closed_below_emitClose a s Hb) as (Hb' & Hlen).
    destruct (IH (S a) (emitClose a s) Hb') as (G2 & G3).
    split; [|by rewrite <- Hlen].
    by replace (a + S n) with (S a + n) by lia.
Qed.

(** When the microtasks have run, every destroyed instance is closed. *)
Lemma all_closed_microtasks s : all_closed (microtasks s).
Proof.
  destruct (microtasks_loop (length (peerObjs s)) 0 s) as (G2 & G3).
  { intros id p Hlt. lia. }
  fold (microtasks s) in G2, G3.
  intros id p Hl Hd. apply (G2 id); [|done..].
  apply lookup_lt_Some in Hl. simpl. lia.
Qed.

(** *** Every event *)

Lemma Mesh_setProps p s : Mesh s → Mesh (setProps p s).
Proof.
  intros H. unfold setProps.
  set (s2 := set_memo_createPeer _ _).
  assert (H' : Mesh s2) by (subst s2; same_mesh H).
  destruct (bool_decide _); [done|].
  unfold connectionEffect. destruct (_ && _).
  - apply (Mesh_smf _ _ (smf_connectToVoice _ _ _ _)).
    by apply Mesh_disconnectFromVoice.
  - by apply Mesh_disconnectFromVoice, Mesh_disconnectFromVoice.
Qed.

Lemma mount_peerObjs p : peerObjs (mount p) = [].
Proof.
  assert (E : disconnectFromVoice (initial p) = initial p)
    by (by apply disconnectFromVoice_fixed).
  unfold mount, connectionEffect. destruct (_ && _).
  - by rewrite (proj1 (proj2 (smf_connectToVoice _ _ _ _))).
  - by rewrite E.
Qed.

Lemma Mesh_mount p : Mesh (mount p).
Proof.
  assert (H : Mesh (initial p)).
  { split; intros ?; intros; simpl in *; by rewrite ?lookup_empty in *. }
  unfold mount, connectionEffect. destruct (_ && _).
  - by apply (Mesh_smf _ _ (smf_connectToVoice _ _ _ _)).
  - by apply Mesh_disconnectFromVoice.
Qed.

Lemma Mesh_onChannel c h s :
  (∀ ch, Mesh s → Mesh (h ch s)) → Mesh s → Mesh (onChannel c h s).
Proof.
  intros Hh H. unfold onChannel.
  destruct (channels s !! c) as [ch|]; [|done].
  destruct (_ && _); [by apply Hh | done].
Qed.

Lemma Mesh_handle e s : Mesh s → Mesh (handle e s).
Proof.
  intros H. destruct e; simpl.
  - by apply Mesh_setProps.
  - by apply (Mesh_smf _ _ (smf_connectToVoice _ _ _ _)).
  - by apply Mesh_disconnectFromVoice.
  - by apply (Mesh_smf _ _ (smf_toggleMute _ _)).
  - by apply Mesh_toggleDeafen.
  - by apply (Mesh_smf _ _ (smf_settle _ _ _)).
  - apply Mesh_onChannel; [|done]. intros ch _. by apply Mesh_onPresenceSync.
  - apply Mesh_onChannel; [|done]. intros ch _. by apply Mesh_initiateIfSmaller.
  - apply Mesh_onChannel; [|done]. intros ch _. by apply Mesh_onPresenceLeave.
  - apply Mesh_onChannel; [|done]. intros ch _.
    by apply (Mesh_smf _ _ (smf_onVoiceActivity _ _ _)).
  - apply Mesh_onChannel; [|done]. intros ch _. by apply Mesh_onWebRTCSignal.
  - unfold onPeer.
    destruct (peerObjs s !! id) as [q|]; [|done].
    destruct (destroyed q); [done|].
    by apply (Mesh_smf _ _ (smf_send _ _)).
  - unfold onPeer.
    destruct (peerObjs s !! id) as [q|] eqn:E; [|done].
    destruct (destroyed q) eqn:Hd; [done|].
    by apply Mesh_playRemoteAudio.
  - by apply Mesh_peerFails.
  - by apply Mesh_peerCloses.
  - by apply (Mesh_smf _ _ (smf_animationFrame _ _ _)).
Qed.

Lemma Reachable_Mesh p s : Reachable p s → Mesh s ∧ all_closed s.
Proof.
  intros [tasks ->]. unfold runTasks.
  apply (foldl_preserved (λ s, Mesh s ∧ all_closed s)).
  - intros a es [Ha _]. unfold task. split; [|apply all_closed_microtasks].
    apply Mesh_microtasks. apply (foldl_preserved Mesh); [|done].
    intros b e Hb. by apply Mesh_handle.
  - split; [apply Mesh_mount|].
    intros id q. by rewrite mount_peerObjs.
Qed.

(** X17. In every state a mounted hook can be in between two tasks,
    whatever callbacks shared a task: an entry of the peer map holds a live
    instance that was created toward its key; every destroyed instance has
    had its 'close' handler run; and an audio element that is still
    attached (playing, holding a stream or in the document) is the one the
    audio map holds for some user.  The converse of the first part is not
    kept: a live instance can be outside the map, see
    [alice_bob_flapped]. *)
Theorem X17_map_entries_are_live (p0 : Props) (s : Hook) :
  Reachable p0 s →
  (∀ k id, peersRef s !! k = Some id →
     ∃ p, peerObjs s !! id = Some p ∧ target p = k ∧ destroyed p = false)
  ∧ (∀ id p, peerObjs s !! id = Some p → destroyed p = true →
       closeEmitted p = true)
  ∧ (∀ a el, audios s !! a = Some el →
       (srcObject el = None ∧ paused el = true ∧ inDocument el = false)
       ∨ ∃ k, remoteAudiosRef s !! k = Some a).
Proof.
  intros Hr. apply Reachable_Mesh in Hr as ((H1 & H2) & H3).
  split; [exact H1|]. split; [exact H3 | exact H2].
Qed.

Lemma X17_map_entries_are_live_witness :
  ∃ p, peerObjs alice_deafened_then_bob !! 0 = Some p
       ∧ target p = "bob" ∧ destroyed p = false.
Proof.
  assert (Hr : Reachable alice_off alice_deafened_then_bob)
    by apply Reachable_run, alice_connected_reachable.
  assert (Hk : peersRef alice_deafened_then_bob !! "bob" = Some 0)
    by (vm_compute; reflexivity).
  exact (proj1 (X17_map_entries_are_live alice_off
                  alice_deafened_then_bob Hr) "bob" 0 Hk).
Defined.

(** X18. What [disconnectFromVoice] leaves behind in a reachable state.
    No live peer instance is left exactly when every live instance was in
    the peer map under its target, and the audio map is left empty exactly
    when every entry of it belonged to a key of the peer map; in that case
    every audio element is paused, without a stream and out of the
    document afterwards.  No instance is dropped from the store.  The hook
    does not keep the two conditions: they hold in
    [alice_deafened_then_bob] and fail in [alice_bob_flapped_playing]. *)
Theorem X18_what_disconnect_leaves_behind (p0 : Props) (s : Hook) :
  Reachable p0 s →
  let s' := disconnectFromVoice s in
  ((∀ id p, peerObjs s' !! id = Some p → destroyed p = true)
   ↔ live_mapped s)
  ∧ (remoteAudiosRef s' = ∅ ↔ audio_linked s)
  ∧ (audio_linked s →
     ∀ a el, audios s' !! a = Some el →
       paused el = true ∧ srcObject el = None ∧ inDocument el = false)
  ∧ length (peerObjs s') = length (peerObjs s).
Proof.
  intros Hr s'. subst s'.
  apply Reachable_Mesh in Hr as ((H1 & H2) & _).
  split; [|split; [|split]].
  - split.
    + intros Hall id p Hl Hd.
      destruct (decide (id ∈ (map_to_list (peersRef s)).*2)) as [Hin|Hout].
      * apply key_of_entry in Hin as [k Hk].
        destruct (H1 k id Hk) as (q & Hq & Ht & _).
        assert (q = p) as -> by congruence. by rewrite Ht.
      * exfalso. specialize (Hall id p).
        rewrite disconnectFromVoice_peerObjs in Hall.
        rewrite bool_decide_eq_false_2 in Hall by done.
        specialize (Hall Hl). congruence.
    + intros Hlm id p. rewrite disconnectFromVoice_peerObjs. intros Hl.
      destruct (bool_decide _) eqn:E.
      * destruct (peerObjs s !! id); simpl in Hl; [|done].
        by injection Hl as <-.
      * apply bool_decide_eq_false_1 in E.
        destruct (destroyed p) eqn:Hd; [done|]. exfalso. apply E.
        by apply (key_in_entries _ (target p)), Hlm.
  - split.
    + intros Hem k Hk Hnone. apply Hk.
      rewrite <- (lookup_empty (M := gmap string) (A := nat) k), <- Hem.
      rewrite disconnectFromVoice_remoteAudios.
      rewrite bool_decide_eq_false_2; [done|].
      intros Hin. apply entry_of_key in Hin as [id Hid]. congruence.
    + intros Hal. apply map_eq. intros k. rewrite lookup_empty.
      rewrite disconnectFromVoice_remoteAudios.
      destruct (bool_decide _) eqn:E; [done|].
      apply bool_decide_eq_false_1 in E.
      destruct (remoteAudiosRef s !! k) eqn:Ea; [|done].
      exfalso. destruct (peersRef s !! k) as [id|] eqn:Ep.
      * apply E. by apply (key_in_entries _ _ id).
      * apply (Hal k); [by rewrite Ea | done].
  - intros Hal a el Hel.
    destruct (disconnect_audios_detached s a el Hal H2 Hel) as (D1 & D2 & D3).
    done.
  - apply Nat.le_antisymm.
    + destruct (length (peerObjs (disconnectFromVoice s))) as [|n] eqn:E;
        [lia|].
      destruct (lookup_lt_is_Some_2 (peerObjs (disconnectFromVoice s)) n)
        as [q Hq]; [lia|].
      rewrite disconnectFromVoice_peerObjs in Hq.
      assert (is_Some (peerObjs s !! n)) as Hs.
      { destruct (bool_decide _); destruct (peerObjs s !! n); by eauto. }
      apply lookup_lt_is_Some_1 in Hs. lia.
    + destruct (length (peerObjs s)) as [|n] eqn:E; [lia|].
      destruct (lookup_lt_is_Some_2 (peerObjs s) n) as [q Hq]; [lia|].
      assert (is_Some (peerObjs (disconnectFromVoice s) !! n)) as Hs.
      { rewrite disconnectFromVoice_peerObjs, Hq.
        destruct (bool_decide _); by eauto. }
      apply lookup_lt_is_Some_1 in Hs. lia.
Qed.

Lemma X18_what_disconnect_leaves_behind_witness :
  audio_linked alice_deafened_then_bob
  ∧ ¬ live_mapped alice_bob_flapped_playing
  ∧ ¬ audio_linked alice_bob_flapped_playing.
Proof.
  assert (Hr : Reachable alice_off alice_deafened_then_bob)
    by apply Reachable_run, alice_connected_reachable.
  assert (Hr' : Reachable alice_off alice_bob_flapped_playing)
    by apply Reachable_run, Reachable_runTasks, alice_connected_reachable.
  assert (He : remoteAudiosRef (disconnectFromVoice alice_deafened_then_bob)
               = ∅) by (vm_compute; reflexivity).
  assert (Hp : destroyed
                 <$> peerObjs (disconnectFromVoice alice_bob_flapped_playing)
                     !! 1 = Some false) by (vm_compute; reflexivity).
  assert (Ha : remoteAudiosRef (disconnectFromVoice alice_bob_flapped_playing)
               !! "bob" = Some 0) by (vm_compute; reflexivity).
  destruct (X18_what_disconnect_leaves_behind alice_off
              alice_deafened_then_bob Hr) as (_ & [G2 _] & _).
  destruct (X18_what_disconnect_leaves_behind alice_off
              alice_bob_flapped_playing Hr') as ([_ F1] & [_ F2] & _).
  split; [exact (G2 He)|]. split.
  - intros Hlm. clear He Ha. apply fmap_Some in Hp as (q & Hq & Hd).
    rewrite (F1 Hlm 1 q Hq) in Hd. discriminate Hd.
  - intros Hal. clear He Hp. rewrite (F2 Hal), lookup_empty in Ha.
    discriminate Ha.
Defined.

(** ** A suspended attempt outlives the switch *)

Lemma afterCapture_granted_fields r rcp rinit firstFrame x :
  let x1 := connectToVoice_afterCapture r rcp rinit (Granted firstFrame) x in
  localStreamRef x1 = Some [length (tracks x)]
  ∧ tracks x1 = tracks x ++ [mkTrack AudioTrack true false]
  ∧ channelRef x1 = Some (length (channels x))
  ∧ channels x1
    = channels x
      ++ [mkChannel ("voice:" ++ Render.channelId r) (Render.nickname r)
            true true false r rcp]
  ∧ pending x1 = pending x ++ [AwaitTrack]
  ∧ props x1 = props x ∧ isConnected x1 = isConnected x
  ∧ connectionError x1 = connectionError x.
Proof.
  unfold connectToVoice_afterCapture, initializeAudio_settled,
    startVoiceActivityDetection. simpl.
  match goal with
  | |- context [detectVoice rinit firstFrame ?y] =>
      destruct (detectVoice_nf rinit firstFrame y (mkAnalyser 256 lit_0_8))
        as (lvl & ob & ->); [done | done |]
  end.
  simpl. by repeat split.
Qed.

(** X20. Switching voice off does not cancel an attempt that is waiting
    for the microphone: the continuation stays suspended, and when access
    is granted afterwards it captures the stream, joins the channel of the
    render that started it and, once the relay has answered, reports the
    session as connected, with the new track live, while [isEnabled] is
    false. *)
Theorem X20_disable_does_not_cancel (s : Hook) (i : nat)
    (r rcp rinit : Render.t) (firstFrame : list byte) :
  p_isEnabled (props s) = true →
  pending s !! i = Some (AwaitCapture r rcp rinit) →
  let s0 := handleToggleVoice s in
  let s1 := settle i (CaptureOutcome (Granted firstFrame)) s0 in
  let s2 := settle (length (pending s) - 1) (TrackOutcome true) s1 in
  p_isEnabled (props s0) = false ∧ status s0 = Disconnected
  ∧ pending s0 = pending s
  ∧ p_isEnabled (props s2) = false
  ∧ status s2 = Connected
  ∧ localStreamRef s2 = Some [length (tracks s0)]
  ∧ tracks s2 !! length (tracks s0) = Some (mkTrack AudioTrack true false)
  ∧ channelRef s2 = Some (length (channels s0))
  ∧ channels s2 !! length (channels s0)
    = Some (mkChannel ("voice:" ++ Render.channelId r) (Render.nickname r)
              true true false r rcp).
Proof.
  intros He Hi s0 s1 s2.
  assert (E0 : ∃ rcp0, s0 = disconnectFromVoice
                 (set_memo_createPeer rcp0
                    (set_props (mkProps (p_channelId (props s))
                                  (p_nickname (props s)) false) s))).
  { eexists. subst s0. unfold handleToggleVoice, setProps. cbv zeta.
    rewrite He. simpl negb.
    rewrite bool_decide_eq_false_2
      by (intros H; apply (f_equal p_isEnabled) in H; simpl in H; congruence).
    unfold connectionEffect.
    replace (Render.isEnabled _) with false by (by destruct s).
    simpl. apply disconnectFromVoice_idem. }
  destruct E0 as [rcp0 E0].
  assert (F0 : p_isEnabled (props s0) = false ∧ status s0 = Disconnected
               ∧ pending s0 = pending s ∧ connectionError s0 = None).
  { rewrite E0. split; [by disconnect_nf|]. split; [by disconnect_nf|].
    split; by disconnect_nf. }
  destruct F0 as (Fp & Fs & Fq & Fe).
  clearbody s0. clear E0.
  set (x := set_pending (delete i (pending s0)) s0).
  assert (E1 : s1 = connectToVoice_afterCapture r rcp rinit
                      (Granted firstFrame) x).
  { subst s1 x. unfold settle. by rewrite Fq, Hi. }
  destruct (afterCapture_granted_fields r rcp rinit firstFrame x)
    as (G1 & G2 & G3 & G4 & G5 & G6 & G7 & G8).
  rewrite <- E1 in G1, G2, G3, G4, G5, G6, G7, G8.
  simpl in G1, G2, G3, G4, G5, G6, G7, G8.
  clearbody s1. clear E1.
  assert (Hlen : length (delete i (pending s0)) = length (pending s) - 1).
  { rewrite Fq. apply length_delete. by rewrite Hi. }
  assert (E2 : s2 = set_isConnected true
                      (set_pending (delete (length (pending s) - 1)
                                      (pending s1)) s1)).
  { subst s2. unfold settle. rewrite G5, <- Hlen.
    by rewrite list_lookup_middle. }
  rewrite E2. clear E2. clearbody s2.
  split; [exact Fp|]. split; [exact Fs|]. split; [exact Fq|].
  split; [simpl; by rewrite G6|].
  split; [unfold status, hasError; simpl; by rewrite G8, Fe|].
  split; [exact G1|].
  split; [simpl; rewrite G2; by apply list_lookup_middle|].
  split; [exact G3|].
  simpl. rewrite G4. by apply list_lookup_middle.
Qed.

Lemma X20_disable_does_not_cancel_witness :
  let s0 := handleToggleVoice alice_connecting in
  let s2 := settle 0 (TrackOutcome true)
              (settle 0 (CaptureOutcome (Granted [])) s0) in
  p_isEnabled (props s2) = false ∧ status s2 = Connected.
Proof.
  assert (He : p_isEnabled (props alice_connecting) = true)
    by (vm_compute; reflexivity).
  assert (Hi : pending alice_connecting !! 0
               = Some (AwaitCapture (firstRender alice_on)
                         (firstRender alice_off) (firstRender alice_off)))
    by (vm_compute; reflexivity).
  assert (Hl : length (pending alice_connecting) - 1 = 0)
    by (vm_compute; reflexivity).
  destruct (X20_disable_does_not_cancel alice_connecting 0 _ _ _ [] He Hi)
    as (_ & _ & _ & H4 & H5 & _).
  rewrite Hl in H4, H5. split; [exact H4 | exact H5].
Defined.

(** ** A repeated presence sync *)










(** ** Props that do not ask for a connection *)

(** X22. When the props do not enable voice, or carry an empty channel id
    or an empty nickname, rendering the hook with them starts no attempt:
    no capture is requested and nothing is suspended that was not before;
    if the props changed, the session is torn down and Disconnected.
    Mounting the hook with such props leaves the initial state. *)
Theorem X22_no_attempt_without_identity (p : Props) (s : Hook) :
  p_isEnabled p = false ∨ p_channelId p = "" ∨ p_nickname p = "" →
  captureRequests (setProps p s) = captureRequests s
  ∧ pending (setProps p s) = pending s
  ∧ (props s ≠ p →
     status (setProps p s) = Disconnected
     ∧ peersRef (setProps p s) = ∅
     ∧ localStreamRef (setProps p s) = None
     ∧ channelRef (setProps p s) = None)
  ∧ mount p = initial p.
Proof.
  intros Hp.
  assert (Hcond : p_isEnabled p && str_truthy (p_channelId p)
                  && str_truthy (p_nickname p) = false).
  { destruct Hp as [->|[-> | ->]]; [done| |].
    - by rewrite andb_false_r.
    - by rewrite andb_false_r. }
  assert (E : props s ≠ p →
              ∃ rcp, setProps p s
                     = disconnectFromVoice
                         (set_memo_createPeer rcp (set_props p s))).
  { intros Hne. eexists. unfold setProps. cbv zeta.
    rewrite bool_decide_eq_false_2 by done.
    unfold connectionEffect, currentRender. simpl. rewrite Hcond.
    apply disconnectFromVoice_idem. }
  split; [|split; [|split]].
  - destruct (decide (props s = p)) as [Heq|Hne].
    + unfold setProps. by rewrite bool_decide_eq_true_2.
    + destruct (E Hne) as [rcp ->]. by disconnect_nf.
  - destruct (decide (props s = p)) as [Heq|Hne].
    + unfold setProps. by rewrite bool_decide_eq_true_2.
    + destruct (E Hne) as [rcp ->]. by disconnect_nf.
  - intros Hne. destruct (E Hne) as [rcp ->].
    split; [by disconnect_nf|]. split; [by disconnect_nf|].
    split; by disconnect_nf.
  - unfold mount, connectionEffect, currentRender. simpl. rewrite Hcond.
    by apply disconnectFromVoice_fixed.
Qed.

Lemma X22_no_attempt_without_identity_witness :
  captureRequests (setProps (mkProps "c1" "" true) alice_connected)
  = captureRequests alice_connected
  ∧ mount (mkProps "c1" "" true) = initial (mkProps "c1" "" true).
Proof.
  destruct (X22_no_attempt_without_identity (mkProps "c1" "" true)
              alice_connected (or_intror (or_intror eq_refl)))
    as (H1 & _ & _ & H4).
  split; [exact H1 | exact H4].
Defined.
